(** * program3.py: backup of a local directory tree to S3 and restore from it

    A shallow embedding of [src/source-code/program3.py] together with the
    part of its environment the program talks to: Python's [str] methods,
    [os.path] and [os] on a POSIX host (the [posixpath] flavour, a file tree
    without symbolic links), and an S3 account seen through the boto3
    resource API.  Every call that leaves the interpreter is recorded as an
    [event], so that what the program did is a value one can state theorems
    about.

    Times ([os.path.getmtime], [last_modified.timestamp()]) are numbers that
    the program only compares; they are integers here, in the smallest unit
    of the clocks. *)

From Stdlib Require Import String Ascii List ZArith Bool Arith Lia.
Import ListNotations.
Open Scope string_scope.

(* ================================================================== *)
(** ** Python strings *)

Module Str.

Definition nl : string := String (ascii_of_nat 10) "".
Definition tab : string := String (ascii_of_nat 9) "".
Definition backslash : ascii := ascii_of_nat 92.
Definition slash : ascii := "/"%char.

(** [s.startswith(p)] *)
Fixpoint startswith (p s : string) : bool :=
  match p, s with
  | EmptyString, _ => true
  | String _ _, EmptyString => false
  | String a p', String b s' => Ascii.eqb a b && startswith p' s'
  end.

(** [s.replace(old, new)] for one-character [old] and [new] *)
Fixpoint replace (old new : ascii) (s : string) : string :=
  match s with
  | EmptyString => EmptyString
  | String c r =>
      String (if Ascii.eqb c old then new else c) (replace old new r)
  end.

(** [s.split(sep)] for a non-empty [sep]: the pieces between the
    non-overlapping occurrences of [sep], scanned from the left.  [skip]
    counts the characters of an occurrence still to be passed over. *)
Fixpoint split_from (sep : string) (skip : nat) (s : string) : list string :=
  match s with
  | EmptyString => [EmptyString]
  | String c r =>
      match skip with
      | S k => split_from sep k r
      | O =>
          if startswith sep s
          then EmptyString :: split_from sep (String.length sep - 1) r
          else match split_from sep 0 r with
               | h :: t => String c h :: t
               | [] => [String c EmptyString]
               end
      end
  end.

Definition split (sep s : string) : list string := split_from sep 0 s.

(** [sep.join(l)] *)
Fixpoint join (sep : string) (l : list string) : string :=
  match l with
  | [] => EmptyString
  | [x] => x
  | x :: r => x ++ sep ++ join sep r
  end.

(** [s[-1]]; [None] stands for the IndexError on the empty string *)
Fixpoint last_char (s : string) : option ascii :=
  match s with
  | EmptyString => None
  | String c EmptyString => Some c
  | String _ r => last_char r
  end.

(** [s.rstrip(c)] for one character *)
Fixpoint rstrip (c : ascii) (s : string) : string :=
  match s with
  | EmptyString => EmptyString
  | String a r =>
      match rstrip c r with
      | EmptyString => if Ascii.eqb a c then EmptyString else String a EmptyString
      | r' => String a r'
      end
  end.

Fixpoint all_char (c : ascii) (s : string) : bool :=
  match s with
  | EmptyString => true
  | String a r => Ascii.eqb a c && all_char c r
  end.

Definition nonempty (s : string) : bool :=
  match s with EmptyString => false | _ => true end.

(** [c in s] *)
Fixpoint has_char (c : ascii) (s : string) : bool :=
  match s with
  | EmptyString => false
  | String a r => Ascii.eqb a c || has_char c r
  end.

End Str.

(* ================================================================== *)
(** ** os.path on a POSIX host (posixpath) *)

Module posixpath.

Definition sep : string := "/".
Definition curdir : string := ".".
Definition pardir : string := "..".

Definition isabs (p : string) : bool := Str.startswith sep p.

Definition ends_with_sep (p : string) : bool :=
  match Str.last_char p with
  | Some c => Ascii.eqb c Str.slash
  | None => false
  end.

(** [join(a, b)]: an absolute [b] replaces [a]; otherwise [b] is appended,
    with a separator unless [a] is empty or already ends with one. *)
Definition join (a b : string) : string :=
  if Str.startswith sep b then b
  else if negb (Str.nonempty a) || ends_with_sep a then a ++ b
  else a ++ sep ++ b.

(** [join(a, *p)] *)
Definition join_all (a : string) (p : list string) : string :=
  fold_left join p a.

(** [p[:p.rfind(sep) + 1]]: everything up to and including the last
    separator, empty when there is none *)
Fixpoint upto_last_sep (p : string) : string :=
  match p with
  | EmptyString => EmptyString
  | String c r =>
      match upto_last_sep r with
      | EmptyString => if Ascii.eqb c Str.slash then sep else EmptyString
      | h => String c h
      end
  end.

(** [p[p.rfind(sep) + 1:]] *)
Fixpoint after_last_sep (p : string) : string :=
  match p with
  | EmptyString => EmptyString
  | String c r =>
      match upto_last_sep r with
      | EmptyString => if Ascii.eqb c Str.slash then r else p
      | _ => after_last_sep r
      end
  end.

Definition strip_head (head : string) : string :=
  if Str.nonempty head && negb (Str.all_char Str.slash head)
  then Str.rstrip Str.slash head else head.

(** [dirname(p)] *)
Definition dirname (p : string) : string := strip_head (upto_last_sep p).

(** [split(p)]: the pair (head, tail) *)
Definition split (p : string) : string * string :=
  (strip_head (upto_last_sep p), after_last_sep p).

(** The loop of [normpath] over the components; [acc] is [new_comps] with
    its last element first. *)
Fixpoint norm_comps (rooted : bool) (acc : list string) (comps : list string)
  : list string :=
  match comps with
  | [] => rev acc
  | comp :: rest =>
      if String.eqb comp "" || String.eqb comp curdir
      then norm_comps rooted acc rest
      else if negb (String.eqb comp pardir)
              || (negb rooted && match acc with [] => true | _ => false end)
              || match acc with top :: _ => String.eqb top pardir | [] => false end
      then norm_comps rooted (comp :: acc) rest
      else match acc with
           | _ :: acc' => norm_comps rooted acc' rest
           | [] => norm_comps rooted acc rest
           end
  end.

(** [normpath(path)] *)
Definition normpath (path : string) : string :=
  match path with
  | EmptyString => curdir
  | _ =>
      let initial_slashes : nat :=
        if Str.startswith sep path
        then if Str.startswith "//" path && negb (Str.startswith "///" path)
             then 2%nat else 1%nat
        else 0%nat in
      let comps := norm_comps (0 <? initial_slashes)%nat [] (Str.split sep path) in
      let path' := Str.join sep comps in
      let path' :=
        match initial_slashes with
        | 0%nat => path'
        | 1%nat => sep ++ path'
        | _ => sep ++ sep ++ path'
        end in
      match path' with EmptyString => curdir | _ => path' end
  end.

(** [abspath(path)] with [os.getcwd()] given *)
Definition abspath (cwd path : string) : string :=
  normpath (if isabs path then path else join cwd path).

(** [len(commonprefix([l1, l2]))] on lists of components *)
Fixpoint common_len (l1 l2 : list string) : nat :=
  match l1, l2 with
  | a :: r1, b :: r2 => if String.eqb a b then S (common_len r1 r2) else 0
  | _, _ => 0
  end.

Definition parts (p : string) : list string :=
  filter Str.nonempty (Str.split sep p).

(** [relpath(path, start)]; [None] stands for the ValueError raised on an
    empty [path]. *)
Definition relpath (cwd path start : string) : option string :=
  match path with
  | EmptyString => None
  | _ =>
      let start_list := parts (abspath cwd start) in
      let path_list := parts (abspath cwd path) in
      let i := common_len start_list path_list in
      let rel_list :=
        (repeat pardir (List.length start_list - i) ++ skipn i path_list)%list in
      match rel_list with
      | [] => Some curdir
      | a :: p => Some (join_all a p)
      end
  end.

End posixpath.

(* ================================================================== *)
(** ** Exceptions *)

(** [botocore.exceptions.ClientError] carries the error code of the store's
    response; every other exception class is kept by name. *)
Inductive exn : Type :=
| ClientError (code : string)
| PyError (name : string).

Definition is_named (name : string) (e : exn) : bool :=
  match e with
  | PyError n => String.eqb n name
  | ClientError _ => false
  end.

(* ================================================================== *)
(** ** The host file tree *)

Module Os.

#[warnings="-register-all"] Inductive node : Type :=
| File (mtime : Z)
| Dir (mtime : Z) (entries : list (string * node)).

Definition mtime_of (n : node) : Z :=
  match n with File t => t | Dir t _ => t end.

Fixpoint assoc {A : Type} (k : string) (l : list (string * A)) : option A :=
  match l with
  | [] => None
  | (k', v) :: r => if String.eqb k' k then Some v else assoc k r
  end.

(** Replace the entry named [k], or add it at the end. *)
Fixpoint set_entry {A : Type} (k : string) (v : A) (l : list (string * A))
  : list (string * A) :=
  match l with
  | [] => [(k, v)]
  | (k', v') :: r =>
      if String.eqb k' k then (k, v) :: r else (k', v') :: set_entry k v r
  end.

(** The node reached from [n] along the entry names [segs]. *)
Fixpoint get (n : node) (segs : list string) : option node :=
  match segs with
  | [] => Some n
  | s :: r =>
      match n with
      | Dir _ es =>
          match assoc s es with
          | Some c => get c r
          | None => None
          end
      | File _ => None
      end
  end.

(** Apply [f] to the node at [segs]. *)
Fixpoint update (n : node) (segs : list string) (f : node -> node) : node :=
  match segs with
  | [] => f n
  | s :: r =>
      match n with
      | Dir t es =>
          match assoc s es with
          | Some c => Dir t (set_entry s (update c r f) es)
          | None => n
          end
      | File _ => n
      end
  end.

(** Creating or replacing an entry stamps the directory. *)
Definition add_entry (now : Z) (name : string) (child : node) (n : node) : node :=
  match n with
  | Dir _ es => Dir now (set_entry name child es)
  | File _ => n
  end.

(** Path resolution as the kernel does it, one component at a time from
    the position [cur] (entry names from the root); every component is
    looked up in a directory that must exist. *)
Fixpoint walk_comps (root : node) (cur : list string) (comps : list string)
  : option (list string) :=
  match comps with
  | [] => Some cur
  | c :: rest =>
      match get root cur with
      | Some (Dir _ _) =>
          if String.eqb c "" || String.eqb c "." then walk_comps root cur rest
          else if String.eqb c ".." then walk_comps root (removelast cur) rest
          else walk_comps root (cur ++ [c])%list rest
      | _ => None
      end
  end.

Definition start_of (cwd : list string) (path : string) : list string :=
  if posixpath.isabs path then [] else cwd.

(** [os.stat(path)]; [None] when the path does not name anything *)
Definition stat (root : node) (cwd : list string) (path : string) : option node :=
  match path with
  | EmptyString => None
  | _ =>
      match walk_comps root (start_of cwd path) (Str.split "/" path) with
      | Some segs => get root segs
      | None => None
      end
  end.

(** Where a new entry named by [path] would go: the directory holding it
    and its name.  Trailing separators are dropped when [dir_ok]. *)
Inductive slot : Type :=
| Missing                          (* ENOENT or ENOTDIR on the way, both
                                      reported as FileNotFoundError *)
| Present (n : node)               (* the path names an existing node *)
| Vacant (parent : list string) (name : string).

Definition locate (root : node) (cwd : list string) (path : string) : slot :=
  match rev (Str.split "/" path) with
  | [] => Missing
  | last :: rinit =>
      match walk_comps root (start_of cwd path) (rev rinit) with
      | Some cur =>
          match get root cur with
          | Some (Dir _ es as d) =>
              if String.eqb last "" || String.eqb last "." then Present d
              else if String.eqb last ".."
              then match get root (removelast cur) with
                   | Some p => Present p
                   | None => Missing
                   end
              else match assoc last es with
                   | Some c => Present c
                   | None => Vacant cur last
                   end
          | _ => Missing
          end
      | None => Missing
      end
  end.

(** [os.mkdir(path)] *)
Definition mkdir (now : Z) (root : node) (cwd : list string) (path : string)
  : exn + node :=
  match Str.rstrip Str.slash path with
  | EmptyString =>
      match path with
      | EmptyString => inl (PyError "FileNotFoundError")
      | _ => inl (PyError "FileExistsError")
      end
  | path' =>
      match locate root cwd path' with
      | Missing => inl (PyError "FileNotFoundError")
      | Present _ => inl (PyError "FileExistsError")
      | Vacant parent name =>
          inr (update root parent (add_entry now name (Dir now [])))
      end
  end.

(** [os.makedirs(name)] with [exist_ok=False].  The result is the tree
    as the call leaves it, with the exception it raised if any: a call that
    fails half-way keeps the directories it has made.  The recursion is on
    the head of [name], which is shorter than [name], so [fuel] above the
    length of [name] is never used up. *)
Fixpoint makedirs_rec (fuel : nat) (now : Z) (root : node) (cwd : list string)
  (name : string) : node * option exn :=
  match fuel with
  | O => (root, Some (PyError "RecursionError"))
  | S fuel' =>
      let '(head, tail) := posixpath.split name in
      let '(head, tail) :=
        if Str.nonempty tail then (head, tail) else posixpath.split head in
      let make (root' : node) : node * option exn :=
        match mkdir now root' cwd name with
        | inr root'' => (root'', None)
        | inl e => (root', Some e)
        end in
      if Str.nonempty head && Str.nonempty tail
         && negb (match stat root cwd head with Some _ => true | None => false end)
      then
        let after (root' : node) : node * option exn :=
          if String.eqb tail posixpath.curdir then (root', None) else make root' in
        match makedirs_rec fuel' now root cwd head with
        | (root', None) => after root'
        | (root', Some e) =>
            if is_named "FileExistsError" e then after root' else (root', Some e)
        end
      else make root
  end.

Definition makedirs (now : Z) (root : node) (cwd : list string) (name : string)
  : node * option exn :=
  makedirs_rec (S (String.length name)) now root cwd name.

(** Writing the file [path] as a download does: into an existing
    directory, replacing a file of that name but not a directory. *)
Definition write_file (now : Z) (root : node) (cwd : list string) (path : string)
  : exn + node :=
  match path with
  | EmptyString => inl (PyError "FileNotFoundError")
  | _ =>
      match rev (Str.split "/" path) with
      | [] => inl (PyError "FileNotFoundError")
      | last :: rinit =>
          if String.eqb last "" || String.eqb last "." || String.eqb last ".."
          then match stat root cwd path with
               | Some (Dir _ _) => inl (PyError "IsADirectoryError")
               | _ => inl (PyError "FileNotFoundError")
               end
          else
            match walk_comps root (start_of cwd path) (rev rinit) with
            | Some cur =>
                match get root cur with
                | Some (Dir _ es) =>
                    match assoc last es with
                    | Some (Dir _ _) => inl (PyError "IsADirectoryError")
                    | _ => inr (update root cur (add_entry now last (File now)))
                    end
                | _ => inl (PyError "FileNotFoundError")
                end
            | None => inl (PyError "FileNotFoundError")
            end
      end
  end.

(** One item of [os.walk]: [(dirpath, dirnames, filenames)] *)
Definition walk_item : Type := string * list string * list string.

Definition is_dir_node (n : node) : bool :=
  match n with Dir _ _ => true | File _ => false end.

Definition dirnames (es : list (string * node)) : list string :=
  map fst (filter (fun e => is_dir_node (snd e)) es).

Definition filenames (es : list (string * node)) : list string :=
  map fst (filter (fun e => negb (is_dir_node (snd e))) es).

(** [os.walk(top)] top-down over the directory [n] found at [top]: the
    directory itself, then each sub-directory in turn under the path
    [join(top, name)].  What cannot be scanned yields nothing. *)
Fixpoint walk_node (top : string) (n : node) {struct n} : list walk_item :=
  match n with
  | File _ => []
  | Dir _ es =>
      (top, dirnames es, filenames es) ::
      (fix subdirs (l : list (string * node)) : list walk_item :=
         match l with
         | [] => []
         | (name, c) :: r =>
             (walk_node (posixpath.join top name) c ++ subdirs r)%list
         end) es
  end.

Definition walk (root : node) (cwd : list string) (top : string) : list walk_item :=
  match stat root cwd top with
  | Some n => walk_node top n
  | None => []
  end.

End Os.

(* ================================================================== *)
(** ** The S3 account *)

Module S3.

(** The objects of a bucket in listing order, each with its
    [last_modified] time. *)
Definition bucket : Type := list (string * Z).

Record account : Type := {
  buckets : list (string * bucket);   (* the buckets of [buckets.all()] *)
  taken : list string;                (* bucket names owned by others *)
  faults : list (string * string);    (* keys the store answers with an
                                         error response, and its code *)
  region_name : string;               (* [session.region_name] *)
  s3_clock : Z                        (* the store's clock *)
}.

(** Keys are listed in ascending order: a new key goes before the first
    greater one, an existing key keeps its place. *)
Fixpoint put_key (key : string) (t : Z) (b : bucket) : bucket :=
  match b with
  | [] => [(key, t)]
  | (k, v) :: r =>
      if String.eqb k key then (key, t) :: r
      else if String.ltb key k then (key, t) :: (k, v) :: r
      else (k, v) :: put_key key t r
  end.

(** The request of [Object(bucket, key).last_modified] (HeadObject) *)
Definition head_object (a : account) (bucket_name key : string) : exn + Z :=
  match Os.assoc key (faults a) with
  | Some code => inl (ClientError code)
  | None =>
      match Os.assoc bucket_name (buckets a) with
      | None => inl (ClientError "404")
      | Some b =>
          match Os.assoc key b with
          | Some t => inr t
          | None => inl (ClientError "404")
          end
      end
  end.

(** The store's side of [Bucket(b).upload_file(_, key)] *)
Definition put_object (a : account) (bucket_name key : string) : exn + account :=
  match Os.assoc key (faults a), Os.assoc bucket_name (buckets a) with
  | None, Some b =>
      inr {| buckets := Os.set_entry bucket_name (put_key key (s3_clock a) b) (buckets a);
             taken := taken a; faults := faults a;
             region_name := region_name a; s3_clock := s3_clock a |}
  | _, _ => inl (PyError "S3UploadFailedError")
  end.

(** The store's side of [Bucket(b).download_file(key, _)] *)
Definition get_object (a : account) (bucket_name key : string) : exn + unit :=
  match Os.assoc key (faults a) with
  | Some code => inl (ClientError code)
  | None =>
      match Os.assoc bucket_name (buckets a) with
      | None => inl (ClientError "404")
      | Some b =>
          match Os.assoc key b with
          | Some _ => inr tt
          | None => inl (ClientError "404")
          end
      end
  end.

(** [Bucket(b).objects.filter(Prefix=prefix)]: the keys that start with
    [prefix], in listing order *)
Definition list_objects (a : account) (bucket_name prefix : string)
  : exn + list string :=
  match Os.assoc bucket_name (buckets a) with
  | None => inl (ClientError "NoSuchBucket")
  | Some b => inr (filter (Str.startswith prefix) (map fst b))
  end.

(** [create_bucket(Bucket=name, ...)] *)
Definition create_bucket (a : account) (name : string) : exn + account :=
  if existsb (String.eqb name) (map fst (buckets a))
  then inl (ClientError "BucketAlreadyOwnedByYou")
  else if existsb (String.eqb name) (taken a)
  then inl (ClientError "BucketAlreadyExists")
  else inr {| buckets := (buckets a ++ [(name, [])])%list;
              taken := taken a; faults := faults a;
              region_name := region_name a; s3_clock := s3_clock a |}.

End S3.

(* ================================================================== *)
(** ** The world, the calls that reach it, and the monad of the program *)

Record world : Type := {
  fs : Os.node;           (* the file tree, from the root directory *)
  cwd : list string;      (* the working directory, as entry names *)
  clock : Z;              (* the host's clock *)
  s3 : S3.account
}.

Definition set_fs (n : Os.node) (w : world) : world :=
  {| fs := n; cwd := cwd w; clock := clock w; s3 := s3 w |}.

Definition set_s3 (a : S3.account) (w : world) : world :=
  {| fs := fs w; cwd := cwd w; clock := clock w; s3 := a |}.

(** [os.getcwd()] *)
Definition getcwd (w : world) : string := "/" ++ Str.join "/" (cwd w).

(** Every call that leaves the interpreter, in program order.  The calls
    that change something carry whether they returned ([true]) or raised. *)
Inductive event : Type :=
| Print (text : string)
| Boto3Resource
| Boto3Session
| BucketsAll
| CreateBucket (name region : string) (ok : bool)
| HeadObject (bucket_name key : string)
| ListObjects (bucket_name prefix : string)
| UploadFile (bucket_name filename key : string) (ok : bool)
| DownloadFile (bucket_name key filename : string) (ok : bool)
| OsWalk (top : string)
| GetMtime (path : string)
| PathExists (path : string)
| MakeDirs (path : string) (ok : bool).

(** A computation runs in a world and leaves a result or an exception, the
    world as it is then, and the calls it made. *)
Definition M (A : Type) : Type := world -> (exn + A) * world * list event.

Definition ret {A : Type} (a : A) : M A := fun w => (inr a, w, []).

Definition raise {A : Type} (e : exn) : M A := fun w => (inl e, w, []).

Definition bind {A B : Type} (m : M A) (k : A -> M B) : M B :=
  fun w =>
    match m w with
    | (inr a, w1, t1) =>
        match k a w1 with
        | (r, w2, t2) => (r, w2, (t1 ++ t2)%list)
        end
    | (inl e, w1, t1) => (inl e, w1, t1)
    end.

(** [try: m  except: h] where the handler sees the exception and may
    re-raise it *)
Definition try_except {A : Type} (m : M A) (h : exn -> M A) : M A :=
  fun w =>
    match m w with
    | (inl e, w1, t1) =>
        match h e w1 with
        | (r, w2, t2) => (r, w2, (t1 ++ t2)%list)
        end
    | r => r
    end.

Declare Scope py_scope.
Delimit Scope py_scope with py.
Notation "x <- m ;; k" := (bind m (fun x => k))
  (at level 61, m at next level, right associativity) : py_scope.
Notation "m ;;; k" := (bind m (fun _ => k))
  (at level 61, right associativity) : py_scope.
Open Scope py_scope.

Definition emit (e : event) : M unit := fun w => (inr tt, w, [e]).

(** [print(s)] and [print(s, end=e)] *)
Definition print (s : string) : M unit := emit (Print (s ++ Str.nl)).
Definition print_end (s e : string) : M unit := emit (Print (s ++ e)).

(** [for x in l: s = body(x, s)]; an exception ends the loop. *)
Fixpoint for_each {A S : Type} (l : list A) (body : A -> S -> M S) (s : S) : M S :=
  match l with
  | [] => ret s
  | x :: r => s' <- body x s ;; for_each r body s'
  end.

Definition outcome {A : Type} (r : (exn + A) * world * list event) : exn + A :=
  fst (fst r).
Definition final {A : Type} (r : (exn + A) * world * list event) : world :=
  snd (fst r).
Definition trace {A : Type} (r : (exn + A) * world * list event) : list event :=
  snd r.

(** *** The library calls of the program *)

Definition os_walk (top : string) : M (list Os.walk_item) :=
  fun w => (inr (Os.walk (fs w) (cwd w) top), w, [OsWalk top]).

Definition getmtime (path : string) : M Z :=
  fun w =>
    (match Os.stat (fs w) (cwd w) path with
     | Some n => inr (Os.mtime_of n)
     | None => inl (PyError "FileNotFoundError")
     end, w, [GetMtime path]).

Definition path_exists (path : string) : M bool :=
  fun w =>
    (inr (match Os.stat (fs w) (cwd w) path with Some _ => true | None => false end),
     w, [PathExists path]).

Definition makedirs (path : string) : M unit :=
  fun w =>
    match Os.makedirs (clock w) (fs w) (cwd w) path with
    | (n, None) => (inr tt, set_fs n w, [MakeDirs path true])
    | (n, Some e) => (inl e, set_fs n w, [MakeDirs path false])
    end.

Definition relpath (path start : string) : M string :=
  fun w =>
    (match posixpath.relpath (getcwd w) path start with
     | Some p => inr p
     | None => inl (PyError "ValueError")
     end, w, []).

Definition buckets_all : M (list string) :=
  fun w => (inr (map fst (S3.buckets (s3 w))), w, [BucketsAll]).

Definition last_modified (obj : string * string) : M Z :=
  fun w => (S3.head_object (s3 w) (fst obj) (snd obj), w,
            [HeadObject (fst obj) (snd obj)]).

Definition objects_filter (bucket_name prefix : string) : M (list string) :=
  fun w => (S3.list_objects (s3 w) bucket_name prefix, w,
            [ListObjects bucket_name prefix]).

(** [Bucket(b).upload_file(filename, key)]: the file is read, then put. *)
Definition upload_file (bucket_name filename key : string) : M unit :=
  fun w =>
    match Os.stat (fs w) (cwd w) filename with
    | Some (Os.File _) =>
        match S3.put_object (s3 w) bucket_name key with
        | inr a => (inr tt, set_s3 a w, [UploadFile bucket_name filename key true])
        | inl e => (inl e, w, [UploadFile bucket_name filename key false])
        end
    | Some (Os.Dir _ _) =>
        (inl (PyError "IsADirectoryError"), w, [UploadFile bucket_name filename key false])
    | None =>
        (inl (PyError "FileNotFoundError"), w, [UploadFile bucket_name filename key false])
    end.

(** [Bucket(b).download_file(key, filename)]: the object is fetched, then
    written. *)
Definition download_file (bucket_name key filename : string) : M unit :=
  fun w =>
    match S3.get_object (s3 w) bucket_name key with
    | inl e => (inl e, w, [DownloadFile bucket_name key filename false])
    | inr _ =>
        match Os.write_file (clock w) (fs w) (cwd w) filename with
        | inr n => (inr tt, set_fs n w, [DownloadFile bucket_name key filename true])
        | inl e => (inl e, w, [DownloadFile bucket_name key filename false])
        end
    end.

Definition create_bucket (name region : string) : M unit :=
  fun w =>
    match S3.create_bucket (s3 w) name with
    | inr a => (inr tt, set_s3 a w, [CreateBucket name region true])
    | inl e => (inl e, w, [CreateBucket name region false])
    end.

Definition region_name : M string :=
  fun w => (inr (S3.region_name (s3 w)), w, []).

(* ================================================================== *)
(** ** program3.py *)

(** The handles [boto3.resource("s3")] and [boto3.session.Session()]; the
    account they reach is the one of the world. *)
Inductive s3_resource : Type := ServiceResource.
Inductive s3_session : Type := Session.

Definition boto3_resource : M s3_resource := emit Boto3Resource ;;; ret ServiceResource.
Definition boto3_session : M s3_session := emit Boto3Session ;;; ret Session.

(** [l[i]] *)
Definition index (l : list string) (i : nat) : M string :=
  match nth_error l i with
  | Some x => ret x
  | None => raise (PyError "IndexError")
  end.

Definition msg_bucket_missing (bucket_name : string) : string :=
  "Could not find bucket: " ++ bucket_name ++ " ->Creating specified bucket...".
Definition msg_bucket_taken : string :=
  "Bucket name is taken or invalid, try a different bucket name".

Definition create_bucket_if_needed (bucket_name : string)
  (s3_client : s3_resource) (session : s3_session) : M unit :=
  names <- buckets_all ;;
  if negb (existsb (String.eqb bucket_name) names) then
    try_except
      (print (msg_bucket_missing bucket_name) ;;;
       region <- region_name ;;
       create_bucket bucket_name region)
      (fun err =>
         match err with
         | ClientError _ => print msg_bucket_taken
         | _ => raise err
         end)
  else ret tt.

(** [s3_file_path] is the object handle [s3_client.Object(bucket, key)];
    reading its [last_modified] is the request that can fail. *)
Definition not_up_to_date (current_file_path : string)
  (s3_file_path : string * string) : M bool :=
  looked <- try_except
              (t <- last_modified s3_file_path ;; ret (Some t))
              (fun err =>
                 match err with
                 | ClientError _ => ret None
                 | _ => raise err
                 end) ;;
  match looked with
  | None => ret true
  | Some s3_file_lmt =>
      current_file_lmt <- getmtime current_file_path ;;
      ret (s3_file_lmt <? current_file_lmt)%Z
  end.

Definition msg_found (dir_name : string) : string := "Found directory: " ++ dir_name.
Definition msg_uploading (file_name : string) : string :=
  Str.tab ++ "Uploading: " ++ file_name.
Definition msg_uploaded (file_name : string) : string :=
  "---> Uploaded: " ++ file_name ++ " successfully".
Definition msg_up_to_date (file_name : string) : string :=
  "---> " ++ file_name ++ " is up to date, no new upload is made for this file".
Definition msg_no_backup (root_dir : string) : string :=
  "Directory or file: " ++ root_dir ++ " does not exist for back-up".

(** The key under which [back_up] stores the file [file_name] found in
    [dir_name] (lines 120 and 121). *)
Definition full_path_of (dir_name file_name : string) : string :=
  Str.replace Str.backslash Str.slash (posixpath.join dir_name file_name).

Definition s3_full_path_of (bucket_dir dir_name file_name : string) : string :=
  bucket_dir ++ "/" ++ full_path_of dir_name file_name.

(** The body of the inner loop of [back_up], for one file. *)
Definition back_up_file (bucket_name bucket_dir dir_name file_name : string)
  : M unit :=
  print_end (msg_uploading file_name) " " ;;;
  let full_path := full_path_of dir_name file_name in
  let s3_full_path := bucket_dir ++ "/" ++ full_path in
  stale <- not_up_to_date full_path (bucket_name, s3_full_path) ;;
  if stale then
    upload_file bucket_name full_path s3_full_path ;;;
    print (msg_uploaded file_name)
  else
    print (msg_up_to_date file_name).

(** The body of the outer loop of [back_up], for one directory. *)
Definition back_up_dir (bucket_name bucket_dir : string) (item : Os.walk_item)
  (success : bool) : M bool :=
  let '(dir_name, subdir_list, file_list) := item in
  print (msg_found dir_name) ;;;
  let success := true in
  for_each file_list
    (fun file_name _ => back_up_file bucket_name bucket_dir dir_name file_name) tt ;;;
  ret success.

Definition back_up (s3_client : s3_resource) (session : s3_session)
  (root_dir bucket_name bucket_dir : string) : M unit :=
  items <- os_walk root_dir ;;
  success <- for_each items (back_up_dir bucket_name bucket_dir) false ;;
  if negb success then print (msg_no_backup root_dir) else ret tt.

Definition msg_invalid_bucket (bucket_name : string) : string :=
  "Invalid bucket: " ++ bucket_name ++ " does not exist".
Definition msg_restored (bucket_name root_dir : string) : string :=
  "Restoring files from bucket: " ++ bucket_name
  ++ " into local directory: " ++ root_dir ++ " completed".
Definition msg_no_restore (bucket_dir bucket_name : string) : string :=
  "Directory: " ++ bucket_dir ++ " in bucket: " ++ bucket_name ++ " does not exist".

(** The local path an object is restored to (lines 151 and 152);
    [root_dir] may be [None]. *)
Definition target_of (root_dir : option string) (bucket_dir key : string) : M string :=
  match root_dir with
  | None => ret key
  | Some r => rel <- relpath key bucket_dir ;; ret (posixpath.join r rel)
  end.

(** The body of the loop of [restore], for one listed key.  The test for a
    trailing "/" and its [continue] sit inside the branch that has just
    made the directory. *)
Definition restore_object (root_dir : option string)
  (bucket_name bucket_dir key : string) (success : bool) : M bool :=
  target <- target_of root_dir bucket_dir key ;;
  there <- path_exists (posixpath.dirname target) ;;
  skip <- (if negb there then
             makedirs (posixpath.dirname target) ;;;
             match Str.last_char key with
             | Some c => ret (Ascii.eqb c "/")
             | None => raise (PyError "IndexError")
             end
           else ret false) ;;
  if skip : bool then ret success
  else
    download_file bucket_name key target ;;;
    ret true.

Definition restore (s3_client : s3_resource) (session : s3_session)
  (root_dir : option string) (bucket_name bucket_dir : string) : M unit :=
  names <- buckets_all ;;
  if negb (existsb (String.eqb bucket_name) names) then
    print (msg_invalid_bucket bucket_name)
  else
    keys <- objects_filter bucket_name bucket_dir ;;
    success <- for_each keys (restore_object root_dir bucket_name bucket_dir) false ;;
    if success : bool then
      match root_dir with
      | Some r => print (msg_restored bucket_name r)
      | None => raise (PyError "TypeError")
      end
    else print (msg_no_restore bucket_dir bucket_name).

Definition msg_arguments : string := "Please provide correct number of arguments".
Definition msg_fatal : string := "FATAL ERROR: PLEASE ENTER VALID ARGUMENTS".
Definition msg_no_operation : string := "No valid operation was chosen".

Definition main (argv : list string) : M unit :=
  if (List.length argv <? 3)%nat then print msg_arguments
  else
    s3_client <- boto3_resource ;;
    session <- boto3_session ;;
    if String.eqb (nth 0 argv "") "backup" then
      try_except
        (let root_dir := nth 1 argv "" in
         bucket_name <- index (Str.split "::" (nth 2 argv "")) 0 ;;
         bucket_dir <- index (Str.split "::" (nth 2 argv "")) 1 ;;
         create_bucket_if_needed bucket_name s3_client session ;;;
         print "backing up..." ;;;
         back_up s3_client session root_dir bucket_name bucket_dir)
        (fun _ => print msg_fatal)
    else if String.eqb (nth 0 argv "") "restore" then
      try_except
        (bucket_name <- index (Str.split "::" (nth 1 argv "")) 0 ;;
         bucket_dir <- index (Str.split "::" (nth 1 argv "")) 1 ;;
         let root_dir := nth 2 argv "" in
         print "restoring..." ;;;
         restore s3_client session (Some root_dir) bucket_name bucket_dir)
        (fun _ => print msg_fatal)
    else print msg_no_operation.


(* ================================================================== *)
(** ** Notions the statements use *)

(** What [os.path.getmtime(path)] answers in [w], if anything. *)
Definition local_mtime (w : world) (path : string) : option Z :=
  option_map Os.mtime_of (Os.stat (fs w) (cwd w) path).

(** The account has a bucket of that name. *)
Definition has_bucket (w : world) (bucket_name : string) : Prop :=
  In bucket_name (map fst (S3.buckets (s3 w))).

Definition is_upload (e : event) : bool :=
  match e with UploadFile _ _ _ _ => true | _ => false end.

Definition is_download (e : event) : bool :=
  match e with DownloadFile _ _ _ _ => true | _ => false end.

Definition is_print (e : event) : bool :=
  match e with Print _ => true | _ => false end.

(** The keys whose metadata a run asked for, in order: [back_up] asks once
    for every file it reaches. *)
Fixpoint looked_up (t : list event) : list string :=
  match t with
  | [] => []
  | HeadObject _ key :: r => key :: looked_up r
  | _ :: r => looked_up r
  end.

(** *** Sample worlds *)

Definition account0 : S3.account :=
  {| S3.buckets := [("bk", [])]; S3.taken := ["taken"]; S3.faults := [];
     S3.region_name := "eu-west-1"; S3.s3_clock := 200 |}.

Definition home_at (t : Z) (entries : list (string * Os.node)) : Os.node :=
  Os.Dir 0 [("home", Os.Dir 0 [("u", Os.Dir t entries)])].

Definition home (entries : list (string * Os.node)) : Os.node := home_at 0 entries.

(** A home directory with [data/a.txt], [data/sub/b.txt] and an empty
    directory [data/empty]. *)
Definition w_data : world :=
  {| fs := home [("data", Os.Dir 1 [("a.txt", Os.File 100);
                                    ("sub", Os.Dir 2 [("b.txt", Os.File 50)]);
                                    ("empty", Os.Dir 2 [])])];
     cwd := ["home"; "u"]; clock := 200; s3 := account0 |}.

(** [w_data] after a first backup of [data]: the two files are in the
    bucket, stamped by the store at 150. *)
Definition w_remote : world :=
  {| fs := fs w_data; cwd := cwd w_data; clock := 200;
     s3 := {| S3.buckets := [("bk", [("pfx/data/a.txt", 150%Z);
                                     ("pfx/data/sub/b.txt", 150%Z)])];
              S3.taken := []; S3.faults := [("pfx/data/sub/b.txt", "500")];
              S3.region_name := "eu-west-1"; S3.s3_clock := 200 |} |}.

(** A download that returned. *)
Definition is_completed_download (e : event) : bool :=
  match e with DownloadFile _ _ _ true => true | _ => false end.

(** A directory creation that returned. *)
Definition is_completed_makedirs (e : event) : bool :=
  match e with MakeDirs _ true => true | _ => false end.

(** The path [restore] computes for a key (lines 151 and 152), as a
    function of the working directory. *)
Definition target_path (cwd_path : string) (root_dir : option string)
  (bucket_dir key : string) : option string :=
  match root_dir with
  | None => Some key
  | Some r =>
      option_map (posixpath.join r) (posixpath.relpath cwd_path key bucket_dir)
  end.

(** The keys are directory markers and, when its turn comes, each one finds
    the directory of its target missing and [os.makedirs] able to make it. *)
Fixpoint fresh_markers (root_dir : option string) (bucket_dir : string)
  (keys : list string) (w : world) : Prop :=
  match keys with
  | [] => True
  | key :: rest =>
      Str.last_char key = Some "/"%char
      /\ exists target n,
          target_path (getcwd w) root_dir bucket_dir key = Some target
          /\ Os.stat (fs w) (cwd w) (posixpath.dirname target) = None
          /\ Os.makedirs (clock w) (fs w) (cwd w) (posixpath.dirname target) = (n, None)
          /\ fresh_markers root_dir bucket_dir rest (set_fs n w)
  end.

Definition account_of (objects : S3.bucket) (faults : list (string * string))
  : S3.account :=
  {| S3.buckets := [("bk", objects)]; S3.taken := []; S3.faults := faults;
     S3.region_name := "eu-west-1"; S3.s3_clock := 200 |}.

(** The bucket holds the directory marker [pfx/a/]; the directory [out]
    exists already. *)
Definition w_marker : world :=
  {| fs := home [("out", Os.Dir 5 [])]; cwd := ["home"; "u"]; clock := 200;
     s3 := account_of [("pfx/a/", 10%Z)] [] |}.

(** The bucket holds two directory markers and nothing is there locally. *)
Definition w_markers_only : world :=
  {| fs := home []; cwd := ["home"; "u"]; clock := 200;
     s3 := account_of [("pfx/a/b/", 10%Z); ("pfx/c/d/", 11%Z)] [] |}.

(** The store refuses every request on [pfx/data/a.txt]. *)
Definition w_refused : world :=
  {| fs := fs w_data; cwd := cwd w_data; clock := 200;
     s3 := account_of [] [("pfx/data/a.txt", "403")] |}.

(** Two objects to restore, the first of which the store refuses. *)
Definition w_refused_get : world :=
  {| fs := home []; cwd := ["home"; "u"]; clock := 200;
     s3 := account_of [("pfx/a.txt", 10%Z); ("pfx/b.txt", 11%Z)]
                      [("pfx/a.txt", "403")] |}.

(** The files below a directory, each with the names of the directories
    that lead to it from there, in the order [os.walk] reaches them. *)
Fixpoint rel_files (n : Os.node) : list (list string * string) :=
  match n with
  | Os.File _ => []
  | Os.Dir _ es =>
      (map (fun f => ([], f)) (Os.filenames es)
       ++ (fix below (l : list (string * Os.node)) : list (list string * string) :=
             match l with
             | [] => []
             | (name, c) :: r =>
                 map (fun p => (name :: fst p, snd p)) (rel_files c) ++ below r
             end) es)%list
  end.

(** The key of the file [file_name] found [segs] below [root_dir]: the
    prefix, "/", and the path [os.walk] and [os.path.join] build for the
    file from [root_dir], with every backslash replaced. *)
Definition key_of (bucket_dir root_dir : string) (p : list string * string) : string :=
  bucket_dir ++ "/"
  ++ Str.replace Str.backslash Str.slash
       (posixpath.join (posixpath.join_all root_dir (fst p)) (snd p)).

(** The files a walk hands to the inner loop of [back_up], each with the
    directory path it was found under. *)
Definition files_of_item (item : Os.walk_item) : list (string * string) :=
  let '(dir_name, _, file_list) := item in map (pair dir_name) file_list.

Definition jobs (items : list Os.walk_item) : list (string * string) :=
  flat_map files_of_item items.

(** Induction on file trees, with the hypothesis for every entry of a
    directory. *)
Fixpoint node_induction (P : Os.node -> Prop)
  (HF : forall t, P (Os.File t))
  (HD : forall t es, Forall (fun e => P (snd e)) es -> P (Os.Dir t es))
  (n : Os.node) {struct n} : P n :=
  match n with
  | Os.File t => HF t
  | Os.Dir t es =>
      HD t es
        ((fix all (l : list (string * Os.node)) : Forall (fun e => P (snd e)) l :=
            match l with
            | [] => Forall_nil _
            | e :: r => Forall_cons e (node_induction P HF HD (snd e)) (all r)
            end) es)
  end.

(** The change check of [back_up] for the file [snd j] of the directory
    [fst j] answers that no upload is needed. *)
Definition up_to_date (bucket_name bucket_dir : string) (w : world)
  (j : string * string) : Prop :=
  outcome (not_up_to_date (full_path_of (fst j) (snd j))
             (bucket_name, s3_full_path_of bucket_dir (fst j) (snd j)) w)
  = inr false.

(** The file's modification time, if it has one, is not later than the
    store's clock. *)
Definition not_after_store (w : world) (j : string * string) : Prop :=
  forall t, local_mtime w (full_path_of (fst j) (snd j)) = Some t ->
            (t <= S3.s3_clock (s3 w))%Z.

(** The store's clock is behind the file [data/a.txt], modified at 100. *)
Definition w_skewed : world :=
  {| fs := home [("data", Os.Dir 1 [("a.txt", Os.File 100)])];
     cwd := ["home"; "u"]; clock := 100;
     s3 := {| S3.buckets := [("bk", [])]; S3.taken := []; S3.faults := [];
              S3.region_name := "eu-west-1"; S3.s3_clock := 50 |} |}.

(** A plain entry name: not empty, neither "." nor "..", and free of both
    separators. *)
Definition plain_name (s : string) : bool :=
  Str.nonempty s
  && negb (Str.has_char Str.slash s)
  && negb (Str.has_char Str.backslash s)
  && negb (String.eqb s ".")
  && negb (String.eqb s "..").

(** *** Properties of events, runs and worlds *)

(** The event is not the printing of [text]. *)
Definition not_report (text : string) (e : event) : Prop := e <> Print text.

(** The run asks for the keys [g], in order: for all of them when it
    returns, for the first of them when it raises. *)
Definition asks_for {A : Type} (g : list string)
  (r : (exn + A) * world * list event) : Prop :=
  (exists rest, g = (looked_up (trace r) ++ rest)%list)
  /\ (forall a, outcome r = inr a -> looked_up (trace r) = g).

(** The event is not a metadata request. *)
Definition no_lookup (e : event) : Prop :=
  match e with HeadObject _ _ => False | _ => True end.

(** Two worlds with the same file tree, working directory and store
    clock: what [back_up] keeps. *)
Definition same_host (w w' : world) : Prop :=
  fs w' = fs w /\ cwd w' = cwd w /\ S3.s3_clock (s3 w') = S3.s3_clock (s3 w).

(** A list of plain names. *)
Definition plain (l : list string) : Prop := Forall (fun s => plain_name s = true) l.

(* ================================================================== *)
(** ** Further notions: what a run touches and what it keeps *)

(** [sep in s] *)
Fixpoint contains (sep s : string) : bool :=
  Str.startswith sep s
  || match s with
     | EmptyString => false
     | String _ r => contains sep r
     end.

Definition is_completed_upload (e : event) : bool :=
  match e with UploadFile _ _ _ true => true | _ => false end.

(** The event writes to the host: a directory made or a file downloaded. *)
Definition writes_host (e : event) : bool :=
  match e with
  | DownloadFile _ _ _ _ | MakeDirs _ _ => true
  | _ => false
  end.

(** The event writes to the store: an upload or a bucket creation. *)
Definition writes_store (e : event) : bool :=
  match e with
  | UploadFile _ _ _ _ | CreateBucket _ _ _ => true
  | _ => false
  end.

(** A computation keeps the relation [R] between the world it starts in
    and the one it leaves, whether it returns or raises. *)
Definition keeps {A : Type} (R : world -> world -> Prop) (m : M A) : Prop :=
  forall w, R w (final (m w)).

(** What [back_up] keeps: the host as it is, and of the account everything
    but the objects of its buckets. *)
Definition host_kept (w w' : world) : Prop :=
  fs w' = fs w /\ cwd w' = cwd w /\ clock w' = clock w
  /\ map fst (S3.buckets (s3 w')) = map fst (S3.buckets (s3 w))
  /\ S3.taken (s3 w') = S3.taken (s3 w)
  /\ S3.faults (s3 w') = S3.faults (s3 w)
  /\ S3.region_name (s3 w') = S3.region_name (s3 w)
  /\ S3.s3_clock (s3 w') = S3.s3_clock (s3 w).

(** What [restore] keeps: the account, the working directory and the
    clock. *)
Definition store_kept (w w' : world) : Prop :=
  s3 w' = s3 w /\ cwd w' = cwd w /\ clock w' = clock w.

(** The store has an object under [key] in the bucket and answers for it. *)
Definition stored (bucket_name : string) (w : world) (key : string) : Prop :=
  exists t, S3.head_object (s3 w) bucket_name key = inr t.

(** The objects the bucket answered for in [w] are still answered for in
    [w'], each with the time it had or with the time of the store's clock. *)
Definition objects_kept (bucket_name : string) (w w' : world) : Prop :=
  S3.s3_clock (s3 w') = S3.s3_clock (s3 w)
  /\ forall key t,
      S3.head_object (s3 w) bucket_name key = inr t ->
      S3.head_object (s3 w') bucket_name key = inr t
      \/ S3.head_object (s3 w') bucket_name key = inr (S3.s3_clock (s3 w)).

(** What a returning [restore] has done for a key: downloaded it to its
    target or, for a key that ends in "/", made the directory of its
    target. *)
Definition handled (bucket_name : string) (root_dir : option string)
  (bucket_dir cwd_path : string) (t : list event) (key : string) : Prop :=
  exists target,
    target_path cwd_path root_dir bucket_dir key = Some target
    /\ (In (DownloadFile bucket_name key target true) t
        \/ (Str.last_char key = Some "/"%char
            /\ In (MakeDirs (posixpath.dirname target) true) t)).

(** An upload goes to the bucket of the backup, under the prefix, "/" and
    the very path of the file that is read. *)
Definition upload_under (bucket_name bucket_dir : string) (e : event) : Prop :=
  match e with
  | UploadFile b filename key _ =>
      b = bucket_name /\ key = (bucket_dir ++ "/" ++ filename)%string
  | _ => True
  end.

(** A run has asked for the metadata of an object at least as often as it
    has tried an upload. *)
Definition checks_first (t : list event) : Prop :=
  (List.length (filter is_upload t) <= List.length (looked_up t))%nat.

(** What [restore] writes on the host is for one of the listed keys: a
    download of the key to its target, or the directory of its target. *)
Definition write_for (bucket_name : string) (root_dir : option string)
  (bucket_dir cwd_path : string) (keys : list string) (e : event) : Prop :=
  match e with
  | DownloadFile b key filename _ =>
      b = bucket_name /\ In key keys
      /\ target_path cwd_path root_dir bucket_dir key = Some filename
  | MakeDirs path _ =>
      exists key target,
        In key keys
        /\ target_path cwd_path root_dir bucket_dir key = Some target
        /\ path = posixpath.dirname target
  | _ => True
  end.
Example normpath_1 : posixpath.normpath "/a//b/./c/../d/" = "/a/b/d".
Proof. reflexivity. Qed.
Example normpath_2 : posixpath.normpath "../a/../../b" = "../../b".
Proof. reflexivity. Qed.
Example normpath_3 : posixpath.normpath "//a/../.." = "//".
Proof. reflexivity. Qed.
Example normpath_4 : posixpath.normpath "///a" = "/a".
Proof. reflexivity. Qed.
Example dirname_1 : map posixpath.dirname ["out/a"; "a"; "/a"; "//a"; "a//b"; "a/b/"; ""; "/"]
   = ["out"; ""; "/"; "//"; "a"; "a/b"; ""; "/"].
Proof. reflexivity. Qed.
Example split_1 : map posixpath.split ["out/a"; "a"; "/a"; "a//b//"; ""; "/"]
   = [("out","a"); ("","a"); ("/","a"); ("a//b",""); ("",""); ("/","")].
Proof. reflexivity. Qed.
Example relpath_1 : posixpath.relpath "/home/u" "pfx/data/a.txt" "pfx" = Some "data/a.txt".
Proof. reflexivity. Qed.
Example relpath_2 : posixpath.relpath "/home/u" "pfx/a/" "pfx" = Some "a".
Proof. reflexivity. Qed.
Example relpath_3 : posixpath.relpath "/home/u" "pfx2/a" "pfx" = Some "../pfx2/a".
Proof. reflexivity. Qed.
Example relpath_4 : posixpath.relpath "/home/u" "pfx/" "pfx" = Some ".".
Proof. reflexivity. Qed.
Example relpath_5 : posixpath.relpath "/home/u" "/abs/a" "" = Some "../../abs/a".
Proof. reflexivity. Qed.
Example split_2 : Str.split "::" "bucket::dir::x:y" = ["bucket"; "dir"; "x:y"].
Proof. reflexivity. Qed.
Example split_3 : Str.split "::" ":::a" = [""; ":a"].
Proof. reflexivity. Qed.
Example split_4 : Str.split "/" "/a//b/" = [""; "a"; ""; "b"; ""].
Proof. reflexivity. Qed.
Example join_1 : map (fun '(a, b) => posixpath.join a b) [("a","b"); ("a/","b"); ("","b"); ("a","/b"); ("a","")]
  = ["a/b"; "a/b"; "b"; "/b"; "a/"].
Proof. reflexivity. Qed.


(** A backup of [data] into [bk::pfx] from the command line, and the
    restore of it into [out]. *)
Example main_backup :
  trace (main ["backup"; "data"; "bk::pfx"] w_data)
  = [Boto3Resource; Boto3Session; BucketsAll; Print ("backing up..." ++ Str.nl);
     OsWalk "data";
     Print (msg_found "data" ++ Str.nl);
     Print (msg_uploading "a.txt" ++ " "); HeadObject "bk" "pfx/data/a.txt";
     UploadFile "bk" "data/a.txt" "pfx/data/a.txt" true;
     Print (msg_uploaded "a.txt" ++ Str.nl);
     Print (msg_found "data/sub" ++ Str.nl);
     Print (msg_uploading "b.txt" ++ " "); HeadObject "bk" "pfx/data/sub/b.txt";
     UploadFile "bk" "data/sub/b.txt" "pfx/data/sub/b.txt" true;
     Print (msg_uploaded "b.txt" ++ Str.nl);
     Print (msg_found "data/empty" ++ Str.nl)].
Proof. reflexivity. Qed.

Example main_restore :
  trace (main ["restore"; "bk::pfx"; "out"]
           (final (main ["backup"; "data"; "bk::pfx"] w_data)))
  = [Boto3Resource; Boto3Session; Print ("restoring..." ++ Str.nl); BucketsAll;
     ListObjects "bk" "pfx";
     PathExists "out/data"; MakeDirs "out/data" true;
     DownloadFile "bk" "pfx/data/a.txt" "out/data/a.txt" true;
     PathExists "out/data/sub"; MakeDirs "out/data/sub" true;
     DownloadFile "bk" "pfx/data/sub/b.txt" "out/data/sub/b.txt" true;
     Print (msg_restored "bk" "out" ++ Str.nl)].
Proof. reflexivity. Qed.

Example main_no_separator :
  trace (main ["backup"; "data"; "bk"] w_data)
  = [Boto3Resource; Boto3Session; Print (msg_fatal ++ Str.nl)].
Proof. reflexivity. Qed.

Example main_bucket_taken :
  trace (main ["backup"; "nowhere"; "taken::pfx"] w_data)
  = [Boto3Resource; Boto3Session; BucketsAll;
     Print (msg_bucket_missing "taken" ++ Str.nl);
     CreateBucket "taken" "eu-west-1" false;
     Print (msg_bucket_taken ++ Str.nl);
     Print ("backing up..." ++ Str.nl); OsWalk "nowhere";
     Print (msg_no_backup "nowhere" ++ Str.nl)].
Proof. reflexivity. Qed.

Example makedirs_1 :
  Os.makedirs 7 (home [("f", Os.File 3)]) ["home"; "u"] "out/../pfx2"
  = (home_at 7 [("f", Os.File 3); ("out", Os.Dir 7 []); ("pfx2", Os.Dir 7 [])], None).
Proof. reflexivity. Qed.

Example makedirs_2 :
  Os.makedirs 7 (home [("f", Os.File 3)]) ["home"; "u"] "out/.."
  = (home_at 7 [("f", Os.File 3); ("out", Os.Dir 7 [])], Some (PyError "FileExistsError")).
Proof. reflexivity. Qed.

Example makedirs_3 :
  Os.makedirs 7 (home [("f", Os.File 3)]) ["home"; "u"] "f/x"
  = (home [("f", Os.File 3)], Some (PyError "FileNotFoundError")).
Proof. reflexivity. Qed.

(* ================================================================== *)
(** ** [os.makedirs] always answers *)

Lemma rstrip_length (c : ascii) (s : string) :
  (String.length (Str.rstrip c s) <= String.length s)%nat.
Proof.
  induction s as [|a s IH]; [apply Nat.le_refl|].
  cbn [Str.rstrip]. destruct (Str.rstrip c s) as [|b r].
  - destruct (Ascii.eqb a c); cbn [String.length]; lia.
  - cbn [String.length] in *. lia.
Qed.

Lemma strip_head_length (h : string) :
  (String.length (posixpath.strip_head h) <= String.length h)%nat.
Proof.
  unfold posixpath.strip_head.
  destruct (Str.nonempty h && negb (Str.all_char Str.slash h));
    [apply rstrip_length | apply Nat.le_refl].
Qed.

Lemma upto_after_length (p : string) :
  (String.length (posixpath.upto_last_sep p)
   + String.length (posixpath.after_last_sep p))%nat = String.length p.
Proof.
  induction p as [|c p IH]; [reflexivity|].
  cbn [posixpath.upto_last_sep posixpath.after_last_sep].
  destruct (posixpath.upto_last_sep p) as [|d h].
  - cbn [String.length plus] in IH.
    destruct (Ascii.eqb c Str.slash); cbn [String.length posixpath.sep plus]; lia.
  - cbn [String.length] in *. lia.
Qed.

Lemma split_length (name : string) :
  (String.length (fst (posixpath.split name)) <= String.length name)%nat
  /\ (Str.nonempty (snd (posixpath.split name)) = true ->
      (String.length (fst (posixpath.split name)) < String.length name)%nat).
Proof.
  unfold posixpath.split. cbn [fst snd].
  pose proof (strip_head_length (posixpath.upto_last_sep name)) as H1.
  pose proof (upto_after_length name) as H2.
  split; [lia|].
  intros Hn. destruct (posixpath.after_last_sep name); [discriminate|].
  cbn [String.length] in H2. lia.
Qed.

Lemma mkdir_error (now : Z) (root : Os.node) (cwd : list string) (path : string)
  (e : exn) :
  Os.mkdir now root cwd path = inl e ->
  e = PyError "FileNotFoundError" \/ e = PyError "FileExistsError".
Proof.
  unfold Os.mkdir. intros H.
  destruct (Str.rstrip Str.slash path).
  - destruct path; injection H as <-; auto.
  - destruct (Os.locate root cwd _); [| |discriminate]; injection H as <-; auto.
Qed.

(** With fuel above the length of the name, the recursion of [makedirs]
    never reaches its end: the answer is the tree, with or without one of the
    exceptions of [os.mkdir]. *)
Lemma makedirs_rec_answers (fuel : nat) :
  forall now root cwd name,
    (String.length name < fuel)%nat ->
    forall e, snd (Os.makedirs_rec fuel now root cwd name) = Some e ->
              e = PyError "FileNotFoundError" \/ e = PyError "FileExistsError".
Proof.
  induction fuel as [|fuel IH]; intros now root cwd name Hlen e; [lia|].
  cbn [Os.makedirs_rec].
  destruct (split_length name) as [Hle Hlt].
  destruct (posixpath.split name) as [h t]. cbn [fst snd] in Hle, Hlt.
  assert (forall root', snd (match Os.mkdir now root' cwd name with
                             | inr root'' => (root'', None)
                             | inl e' => (root', Some e')
                             end) = Some e ->
                        e = PyError "FileNotFoundError" \/ e = PyError "FileExistsError")
    as Hmake.
  { intros root'. destruct (Os.mkdir now root' cwd name) as [e'|n] eqn:E;
      cbn [snd]; intros H; [|discriminate].
    injection H as <-. now apply mkdir_error in E. }
  assert (forall head tail : string,
             (String.length head < String.length name)%nat ->
             snd (if Str.nonempty head && Str.nonempty tail
                     && negb (match Os.stat root cwd head with
                              | Some _ => true | None => false end)
                  then
                    match Os.makedirs_rec fuel now root cwd head with
                    | (root', None) =>
                        if String.eqb tail posixpath.curdir then (root', None)
                        else match Os.mkdir now root' cwd name with
                             | inr root'' => (root'', None)
                             | inl e' => (root', Some e')
                             end
                    | (root', Some e0) =>
                        if is_named "FileExistsError" e0
                        then if String.eqb tail posixpath.curdir then (root', None)
                             else match Os.mkdir now root' cwd name with
                                  | inr root'' => (root'', None)
                                  | inl e' => (root', Some e')
                                  end
                        else (root', Some e0)
                    end
                  else match Os.mkdir now root cwd name with
                       | inr root'' => (root'', None)
                       | inl e' => (root, Some e')
                       end) = Some e ->
             e = PyError "FileNotFoundError" \/ e = PyError "FileExistsError")
    as Hbody.
  { intros head tail Hh.
    destruct (Str.nonempty head && Str.nonempty tail && _); [|apply Hmake].
    specialize (IH now root cwd head ltac:(lia)).
    destruct (Os.makedirs_rec fuel now root cwd head) as [root' [e0|]].
    - destruct (is_named "FileExistsError" e0).
      + destruct (String.eqb tail posixpath.curdir); [discriminate | apply Hmake].
      + cbn [snd]. intros H. injection H as <-. now apply IH.
    - destruct (String.eqb tail posixpath.curdir); [discriminate | apply Hmake]. }
  destruct (Str.nonempty t) eqn:Et.
  - apply Hbody. now apply Hlt.
  - destruct (split_length h) as [Hle' Hlt'].
    destruct (posixpath.split h) as [h' t']. cbn [fst snd] in Hle', Hlt'.
    destruct (Str.nonempty t') eqn:Et'.
    + pose proof (Hbody h' t') as Hb. rewrite Et' in Hb.
      apply Hb. specialize (Hlt' eq_refl). lia.
    + rewrite andb_false_r. cbn [andb]. apply Hmake.
Qed.

Lemma makedirs_answers (now : Z) (root : Os.node) (cwd : list string)
  (name : string) (e : exn) :
  snd (Os.makedirs now root cwd name) = Some e ->
  e = PyError "FileNotFoundError" \/ e = PyError "FileExistsError".
Proof.
  unfold Os.makedirs. apply makedirs_rec_answers. lia.
Qed.

(* ================================================================== *)
(** ** Basic facts *)

Lemma existsb_eqb_false (x : string) (l : list string) :
  existsb (String.eqb x) l = false <-> ~ In x l.
Proof.
  induction l as [|y l IH]; simpl.
  - tauto.
  - rewrite orb_false_iff, IH, String.eqb_neq. intuition congruence.
Qed.

Lemma existsb_eqb_true (x : string) (l : list string) :
  existsb (String.eqb x) l = true <-> In x l.
Proof.
  rewrite existsb_exists. split.
  - intros [y [Hy E]]. apply String.eqb_eq in E. now subst.
  - intros H. exists x. split; [assumption | apply String.eqb_refl].
Qed.

(* ================================================================== *)
(** ** The entry point *)

(** C9: with fewer than three arguments [main] prints the argument-count
    message and returns; it creates no client and no session, and makes no
    other call: the message is the whole trace and the world is untouched. *)
Theorem main_too_few_arguments (argv : list string) (w : world) :
  (List.length argv < 3)%nat ->
  main argv w = (inr tt, w, [Print (msg_arguments ++ Str.nl)]).
Proof.
  intros H. unfold main.
  apply Nat.ltb_lt in H. rewrite H. reflexivity.
Qed.

Lemma main_too_few_arguments_witness :
  main ["backup"; "data"] w_data
  = (inr tt, w_data, [Print (msg_arguments ++ Str.nl)]).
Proof.
  apply (main_too_few_arguments ["backup"; "data"] w_data). simpl. lia.
Defined.

(* ================================================================== *)
(** ** The change check *)



(* ================================================================== *)
(** ** Runs that return *)

Lemma bind_inr {A B : Type} (m : M A) (k : A -> M B) (w w' : world)
  (b : B) (t : list event) :
  bind m k w = (inr b, w', t) ->
  exists a w1 t1 t2,
    m w = (inr a, w1, t1) /\ k a w1 = (inr b, w', t2) /\ t = (t1 ++ t2)%list.
Proof.
  unfold bind. intros H.
  destruct (m w) as [[[e|a] w1] t1]; [discriminate|].
  destruct (k a w1) as [[r w2] t2] eqn:E. injection H as -> -> <-.
  now exists a, w1, t1, t2.
Qed.

(* ================================================================== *)
(** ** Traces of composed computations *)

Section Traces.

Variable P : event -> Prop.

Lemma trace_bind {A B : Type} (m : M A) (k : A -> M B) (w : world) :
  Forall P (trace (m w)) ->
  (forall a w', Forall P (trace (k a w'))) ->
  Forall P (trace (bind m k w)).
Proof.
  intros Hm Hk. unfold bind, trace in *.
  destruct (m w) as [[[e|a] w1] t1]; simpl in *; [assumption|].
  specialize (Hk a w1). destruct (k a w1) as [[r w2] t2]; simpl in *.
  apply Forall_app. now split.
Qed.

Lemma trace_try_except {A : Type} (m : M A) (h : exn -> M A) (w : world) :
  Forall P (trace (m w)) ->
  (forall e w', Forall P (trace (h e w'))) ->
  Forall P (trace (try_except m h w)).
Proof.
  intros Hm Hh. unfold try_except, trace in *.
  destruct (m w) as [[[e|a] w1] t1]; simpl in *; [|assumption].
  specialize (Hh e w1). destruct (h e w1) as [[r w2] t2]; simpl in *.
  apply Forall_app. now split.
Qed.

Lemma trace_for_each {A S : Type} (body : A -> S -> M S) :
  (forall x s w, Forall P (trace (body x s w))) ->
  forall l s w, Forall P (trace (for_each l body s w)).
Proof.
  intros Hb l. induction l as [|x l IH]; intros s w; simpl.
  - constructor.
  - apply trace_bind; [apply Hb | intros; apply IH].
Qed.

Lemma trace_ret {A : Type} (a : A) (w : world) : Forall P (trace (ret a w)).
Proof. constructor. Qed.

Lemma trace_raise {A : Type} (e : exn) (w : world) :
  Forall P (trace (@raise A e w)).
Proof. constructor. Qed.

End Traces.

(** A call made by one of the library functions of the program satisfies
    [P] as soon as the one event it can log does. *)
Ltac one_event :=
  unfold trace, emit, print, print_end, os_walk, getmtime, path_exists, makedirs,
    relpath, buckets_all, last_modified, objects_filter, upload_file,
    download_file, create_bucket, region_name;
  repeat match goal with
         | |- context [match ?x with _ => _ end] => destruct x
         end;
  simpl; repeat constructor.

(** [not_up_to_date] asks the store and the file tree and changes nothing. *)
Lemma not_up_to_date_trace (P : event -> Prop) path obj w :
  P (HeadObject (fst obj) (snd obj)) -> P (GetMtime path) ->
  Forall P (trace (not_up_to_date path obj w)).
Proof.
  intros H1 H2. unfold not_up_to_date.
  apply trace_bind.
  - apply trace_try_except.
    + apply trace_bind; [|intros; apply trace_ret].
      unfold trace, last_modified; simpl. now constructor.
    + intros [c|n] w'; [apply trace_ret | apply trace_raise].
  - intros [t|] w'; [|apply trace_ret].
    apply trace_bind; [|intros; apply trace_ret].
    unfold trace, getmtime; simpl. now constructor.
Qed.

Lemma not_up_to_date_final path obj w :
  final (not_up_to_date path obj w) = w.
Proof.
  unfold not_up_to_date, final, bind, try_except, last_modified, getmtime, ret, raise.
  simpl.
  destruct (S3.head_object (s3 w) (fst obj) (snd obj)) as [[c|n]|t]; simpl;
    try reflexivity.
  destruct (Os.stat (fs w) (cwd w) path); reflexivity.
Qed.

(* ================================================================== *)
(** ** Restore without its bucket *)

(** C6: when the account has no bucket of the given name, [restore] prints
    that the bucket is invalid and returns.  The listing of the buckets and
    the message are the whole trace: no directory is made, no object is
    fetched, and the world is as before. *)
Theorem restore_missing_bucket
  (s3_client : s3_resource) (session : s3_session)
  (root_dir : option string) (bucket_name bucket_dir : string) (w : world) :
  ~ has_bucket w bucket_name ->
  restore s3_client session root_dir bucket_name bucket_dir w
  = (inr tt, w, [BucketsAll; Print (msg_invalid_bucket bucket_name ++ Str.nl)]).
Proof.
  intros H. apply existsb_eqb_false in H.
  unfold restore, bind, buckets_all. simpl. rewrite H. reflexivity.
Qed.

Lemma restore_missing_bucket_witness :
  restore ServiceResource Session (Some "out") "nobucket" "pfx" w_remote
  = (inr tt, w_remote, [BucketsAll; Print (msg_invalid_bucket "nobucket" ++ Str.nl)]).
Proof.
  apply restore_missing_bucket.
  unfold has_bucket. simpl. intros [H|[]]. discriminate H.
Defined.

(* ================================================================== *)
(** ** What the two traversals report when they find nothing *)

Lemma back_up_file_no_report root_dir bucket_name bucket_dir dir_name file_name w :
  Forall (not_report (msg_no_backup root_dir ++ Str.nl))
    (trace (back_up_file bucket_name bucket_dir dir_name file_name w)).
Proof.
  unfold back_up_file.
  apply trace_bind.
  { unfold trace, print_end, emit; simpl. constructor; [|constructor].
    intros E. cbv in E. discriminate E. }
  intros _ w1. apply trace_bind.
  { apply not_up_to_date_trace; intros E; discriminate E. }
  intros [|] w2.
  - apply trace_bind.
    + unfold trace, upload_file.
      destruct (Os.stat _ _ _) as [[?|? ?]|]; simpl;
        [destruct (S3.put_object _ _ _); simpl| |];
        (constructor; [intros E; discriminate E | constructor]).
    + intros _ w3. unfold trace, print, emit; simpl. constructor; [|constructor].
      intros E. cbv in E. discriminate E.
  - unfold trace, print, emit; simpl. constructor; [|constructor].
    intros E. cbv in E. discriminate E.
Qed.

Lemma back_up_dir_no_report root_dir bucket_name bucket_dir item success w :
  Forall (not_report (msg_no_backup root_dir ++ Str.nl))
    (trace (back_up_dir bucket_name bucket_dir item success w)).
Proof.
  destruct item as [[dir_name subdir_list] file_list]. unfold back_up_dir.
  apply trace_bind.
  { unfold trace, print, emit; simpl. constructor; [|constructor].
    intros E. cbv in E. discriminate E. }
  intros _ w1. apply trace_bind; [|intros; apply trace_ret].
  apply trace_for_each. intros. apply back_up_file_no_report.
Qed.

(** Once a directory has been visited the flag of [back_up] is set. *)
Lemma back_up_dirs_success bucket_name bucket_dir items :
  forall success w s' w' t,
    for_each items (back_up_dir bucket_name bucket_dir) success w = (inr s', w', t) ->
    s' = match items with [] => success | _ => true end.
Proof.
  induction items as [|item items IH]; intros success w s' w' t H; simpl in H.
  - unfold ret in H. congruence.
  - unfold bind in H.
    destruct (back_up_dir bucket_name bucket_dir item success w) as [[[e|s1] w1] t1] eqn:E1;
      [discriminate|].
    assert (s1 = true) as ->.
    { destruct item as [[d sd] fl]. unfold back_up_dir in E1.
      apply bind_inr in E1 as (u & w2 & t2 & t3 & _ & E1 & _).
      apply bind_inr in E1 as (u' & w3 & t4 & t5 & _ & E1 & _).
      unfold ret in E1. congruence. }
    destruct (for_each items _ true w1) as [[r2 w2] t2] eqn:E2.
    injection H as -> _ _. apply IH in E2. destruct items; assumption.
Qed.

Lemma walk_nothing (root : Os.node) (cwd : list string) (top : string) :
  (forall t es, Os.stat root cwd top <> Some (Os.Dir t es)) ->
  Os.walk root cwd top = [].
Proof.
  intros H. unfold Os.walk.
  destruct (Os.stat root cwd top) as [[t|t es]|]; try reflexivity.
  now destruct (H t es).
Qed.




(* ================================================================== *)
(** ** Loops *)

Lemma for_each_app {A S : Type} (body : A -> S -> M S) (l1 l2 : list A) :
  forall s w,
    for_each (l1 ++ l2) body s w
    = bind (for_each l1 body s) (fun s' => for_each l2 body s') w.
Proof.
  induction l1 as [|x l1 IH]; intros s w; simpl.
  - unfold bind, ret. destruct (for_each l2 body s w) as [[r w'] t]. reflexivity.
  - unfold bind.
    destruct (body x s w) as [[[e|s1] w1] t1]; [reflexivity|].
    rewrite IH. unfold bind.
    destruct (for_each l1 body s1 w1) as [[[e|s2] w2] t2]; [reflexivity|].
    destruct (for_each l2 body s2 w2) as [[r w3] t3].
    now rewrite app_assoc.
Qed.

(** An exception raised by the body for one element ends the loop there:
    the elements before it have run, those after it never do. *)
Lemma for_each_raise {A S : Type} (body : A -> S -> M S)
  (l1 l2 : list A) (x : A) (s s1 : S) (w w1 w2 : world)
  (t1 t2 : list event) (e : exn) :
  for_each l1 body s w = (inr s1, w1, t1) ->
  body x s1 w1 = (inl e, w2, t2) ->
  for_each (l1 ++ x :: l2) body s w = (inl e, w2, (t1 ++ t2)%list).
Proof.
  intros H1 Hx. rewrite for_each_app. unfold bind at 1. rewrite H1.
  simpl. unfold bind. rewrite Hx. reflexivity.
Qed.

(* ================================================================== *)
(** ** Directory markers *)

(** C4 fails on the code at this input: the marker [pfx/a/] is listed while
    the directory [out] of its target exists, so the branch holding the
    [continue] is not entered and the key is downloaded to the file
    [out/a]. *)
Theorem restore_downloads_marker :
  Str.last_char "pfx/a/" = Some "/"%char
  /\ S3.list_objects (s3 w_marker) "bk" "pfx" = inr ["pfx/a/"]
  /\ trace (restore ServiceResource Session (Some "out") "bk" "pfx" w_marker)
     = [BucketsAll; ListObjects "bk" "pfx"; PathExists "out";
        DownloadFile "bk" "pfx/a/" "out/a" true;
        Print (msg_restored "bk" "out" ++ Str.nl)]
  /\ Os.stat (fs (final (restore ServiceResource Session (Some "out") "bk" "pfx" w_marker)))
       ["home"; "u"] "out/a" = Some (Os.File 200).
Proof. repeat split; reflexivity. Qed.

(* ================================================================== *)
(** ** A transfer that fails *)




(* ================================================================== *)
(** ** What restore reports *)

Lemma restore_object_spec root_dir bucket_name bucket_dir key success w :
  Forall (fun e => is_print e = false)
    (trace (restore_object root_dir bucket_name bucket_dir key success w))
  /\ match outcome (restore_object root_dir bucket_name bucket_dir key success w) with
     | inr s' =>
         s' = success
              || existsb is_completed_download
                   (trace (restore_object root_dir bucket_name bucket_dir key success w))
     | inl _ => True
     end.
Proof.
  unfold restore_object, target_of, bind, relpath, path_exists, makedirs,
    download_file, ret, raise, trace, outcome.
  destruct root_dir as [r|]; simpl.
  - destruct (posixpath.relpath (getcwd w) key bucket_dir) as [rel|]; simpl;
      [|split; [constructor | exact I]].
    destruct (Os.stat (fs w) (cwd w) (posixpath.dirname (posixpath.join r rel)));
      simpl.
    + destruct (S3.get_object (s3 w) bucket_name key); simpl;
        [|destruct (Os.write_file _ _ _ _); simpl];
        (split; [repeat constructor | try exact I; now rewrite ?orb_true_r]).
    + destruct (Os.makedirs _ _ _ _) as [n [e|]]; simpl;
        [split; [repeat constructor | exact I]|].
      destruct (Str.last_char key) as [c|]; simpl;
        [|split; [repeat constructor | exact I]].
      destruct (Ascii.eqb c "/"); simpl;
        [split; [repeat constructor | now rewrite orb_false_r]|].
      destruct (S3.get_object _ bucket_name key); simpl;
        [|destruct (Os.write_file _ _ _ _); simpl];
        (split; [repeat constructor | try exact I; now rewrite ?orb_true_r]).
  - destruct (Os.stat (fs w) (cwd w) (posixpath.dirname key)); simpl.
    + destruct (S3.get_object (s3 w) bucket_name key); simpl;
        [|destruct (Os.write_file _ _ _ _); simpl];
        (split; [repeat constructor | try exact I; now rewrite ?orb_true_r]).
    + destruct (Os.makedirs _ _ _ _) as [n [e|]]; simpl;
        [split; [repeat constructor | exact I]|].
      destruct (Str.last_char key) as [c|]; simpl;
        [|split; [repeat constructor | exact I]].
      destruct (Ascii.eqb c "/"); simpl;
        [split; [repeat constructor | now rewrite orb_false_r]|].
      destruct (S3.get_object _ bucket_name key); simpl;
        [|destruct (Os.write_file _ _ _ _); simpl];
        (split; [repeat constructor | try exact I; now rewrite ?orb_true_r]).
Qed.

Lemma restore_loop_spec root_dir bucket_name bucket_dir keys :
  forall success w,
    Forall (fun e => is_print e = false)
      (trace (for_each keys (restore_object root_dir bucket_name bucket_dir) success w))
    /\ match outcome (for_each keys (restore_object root_dir bucket_name bucket_dir)
                        success w) with
       | inr s' =>
           s' = success
                || existsb is_completed_download
                     (trace (for_each keys
                               (restore_object root_dir bucket_name bucket_dir) success w))
       | inl _ => True
       end.
Proof.
  induction keys as [|key keys IH]; intros success w; simpl.
  - unfold ret, trace, outcome; simpl. split; [constructor | now rewrite orb_false_r].
  - pose proof (restore_object_spec root_dir bucket_name bucket_dir key success w)
      as [HF Ho].
    unfold bind, trace, outcome in *.
    destruct (restore_object root_dir bucket_name bucket_dir key success w)
      as [[[e|s1] w1] t1]; simpl in *; [split; [assumption | exact I]|].
    specialize (IH s1 w1). destruct IH as [HF2 Ho2].
    destruct (for_each keys _ s1 w1) as [[r2 w2] t2]; simpl in *.
    split; [apply Forall_app; now split|].
    destruct r2 as [e|s2]; [exact I|].
    rewrite existsb_app, Ho2, Ho. now rewrite orb_assoc.
Qed.

(** Under [fresh_markers] the loop of [restore] makes one directory for each
    key, downloads nothing and leaves the flag as it was. *)
Lemma restore_markers_loop root_dir bucket_name bucket_dir keys :
  forall success w,
    fresh_markers root_dir bucket_dir keys w ->
    exists w' t,
      for_each keys (restore_object root_dir bucket_name bucket_dir) success w
      = (inr success, w', t)
      /\ Forall (fun e => is_download e = false) t
      /\ Forall (fun e => is_print e = false) t
      /\ List.length (filter is_completed_makedirs t) = List.length keys.
Proof.
  induction keys as [|key keys IH]; intros success w H; simpl in *.
  - exists w, []. repeat split; constructor.
  - destruct H as [Hlast [target [n [Ht [Hs [Hm Hrest]]]]]].
    specialize (IH success _ Hrest). destruct IH as [w' [t [E [HD [HP HL]]]]].
    exists w', ([PathExists (posixpath.dirname target);
                 MakeDirs (posixpath.dirname target) true] ++ t)%list.
    assert (restore_object root_dir bucket_name bucket_dir key success w
            = (inr success, set_fs n w,
               [PathExists (posixpath.dirname target);
                MakeDirs (posixpath.dirname target) true])) as Hstep.
    { unfold restore_object, target_of, target_path in *.
      destruct root_dir as [r|].
      - unfold bind at 1. unfold relpath at 1. unfold bind at 1.
        destruct (posixpath.relpath (getcwd w) key bucket_dir) as [rel|];
          simpl in Ht; [|discriminate].
        injection Ht as <-. cbv beta iota delta [ret].
        unfold bind, path_exists, makedirs. rewrite Hs. simpl. rewrite Hm.
        rewrite Hlast. reflexivity.
      - injection Ht as <-.
        unfold bind, ret, path_exists, makedirs. rewrite Hs. simpl. rewrite Hm.
        rewrite Hlast. reflexivity. }
    unfold bind. rewrite Hstep, E.
    split; [reflexivity|].
    split; [repeat constructor; assumption|].
    split; [repeat constructor; assumption|].
    simpl. now rewrite HL.
Qed.

Lemma not_print_not_in (text : string) (t : list event) :
  Forall (fun e => is_print e = false) t -> ~ In (Print text) t.
Proof.
  intros HF Hin. rewrite Forall_forall in HF. specialize (HF _ Hin). discriminate HF.
Qed.

Lemma msg_restored_not_msg_no_restore bucket_name dir bucket_dir :
  msg_restored bucket_name dir ++ Str.nl <> msg_no_restore bucket_dir bucket_name ++ Str.nl.
Proof. intros E. cbv in E. discriminate E. Qed.

(** [restore] in terms of what its loop does. *)
Lemma restore_unfold
  (s3_client : s3_resource) (session : s3_session)
  (root_dir : option string) (bucket_name bucket_dir : string) (w : world)
  (keys : list string) :
  has_bucket w bucket_name ->
  S3.list_objects (s3 w) bucket_name bucket_dir = inr keys ->
  restore s3_client session root_dir bucket_name bucket_dir w
  = match for_each keys (restore_object root_dir bucket_name bucket_dir) false w with
    | (inl e, w', t) =>
        (inl e, w', BucketsAll :: ListObjects bucket_name bucket_dir :: t)
    | (inr true, w', t) =>
        match root_dir with
        | Some dir =>
            (inr tt, w',
             BucketsAll :: ListObjects bucket_name bucket_dir
               :: (t ++ [Print (msg_restored bucket_name dir ++ Str.nl)])%list)
        | None =>
            (inl (PyError "TypeError"), w',
             BucketsAll :: ListObjects bucket_name bucket_dir :: (t ++ [])%list)
        end
    | (inr false, w', t) =>
        (inr tt, w',
         BucketsAll :: ListObjects bucket_name bucket_dir
           :: (t ++ [Print (msg_no_restore bucket_dir bucket_name ++ Str.nl)])%list)
    end.
Proof.
  intros Hb Hl. apply existsb_eqb_true in Hb.
  cbv beta iota delta [restore buckets_all objects_filter].
  unfold bind at 1. rewrite Hb. cbv beta iota delta [negb].
  unfold bind at 1. rewrite Hl. unfold bind at 1.
  destruct (for_each keys (restore_object root_dir bucket_name bucket_dir) false w)
    as [[[e|[|]] w'] t]; try reflexivity.
  destruct root_dir; reflexivity.
Qed.

Lemma in_print_framed (text text' : string) (e1 e2 : event) (t : list event) :
  is_print e1 = false -> is_print e2 = false ->
  Forall (fun e => is_print e = false) t ->
  In (Print text) (e1 :: e2 :: t ++ [Print text'])%list <-> text' = text.
Proof.
  intros H1 H2 HF. split.
  - intros [H|[H|H]]; [subst e1; discriminate H1 | subst e2; discriminate H2 |].
    apply in_app_or in H. destruct H as [H|[H|[]]].
    + now apply not_print_not_in in H.
    + now injection H.
  - intros ->. right. right. apply in_or_app. right. now left.
Qed.


Lemma fresh_markers_sample :
  fresh_markers (Some "out") "pfx" ["pfx/a/b/"; "pfx/c/d/"] w_markers_only.
Proof.
  split; [reflexivity|].
  eexists. eexists.
  split; [vm_compute; reflexivity|].
  split; [vm_compute; reflexivity|].
  split; [vm_compute; reflexivity|].
  split; [reflexivity|].
  eexists. eexists.
  split; [vm_compute; reflexivity|].
  split; [vm_compute; reflexivity|].
  split; [vm_compute; reflexivity|].
  exact I.
Defined.


(* ================================================================== *)
(** ** The keys of a backup *)

Lemma looked_up_app (t1 t2 : list event) :
  looked_up (t1 ++ t2) = (looked_up t1 ++ looked_up t2)%list.
Proof.
  induction t1 as [|e t1 IH]; simpl; [reflexivity|].
  destruct e; simpl; now rewrite ?IH.
Qed.

Lemma asks_for_each {A S : Type} (body : A -> S -> M S) (g : A -> list string) :
  (forall x s w, asks_for (g x) (body x s w)) ->
  forall l s w, asks_for (flat_map g l) (for_each l body s w).
Proof.
  intros Hb l. induction l as [|x l IH]; intros s w; simpl.
  - split; [now exists [] | reflexivity].
  - destruct (Hb x s w) as [[rest Hp] He].
    unfold bind, asks_for, trace, outcome in *.
    destruct (body x s w) as [[[e|s1] w1] t1]; simpl in *.
    + split; [|discriminate]. exists (rest ++ flat_map g l)%list.
      rewrite Hp. now rewrite app_assoc.
    + specialize (He s1 eq_refl). destruct (IH s1 w1) as [[rest2 Hp2] He2].
      destruct (for_each l body s1 w1) as [[r2 w2] t2]; simpl in *.
      rewrite looked_up_app, He. split.
      * exists rest2. rewrite Hp2 at 1. now rewrite app_assoc.
      * intros a Ha. now rewrite (He2 a Ha).
Qed.

Lemma looked_up_none (t : list event) : Forall no_lookup t -> looked_up t = [].
Proof.
  induction 1 as [|e t He _ IH]; simpl; [reflexivity|].
  destruct e; simpl in *; try assumption. contradiction.
Qed.

Lemma looked_up_bind {A B : Type} (m : M A) (k : A -> M B) (w : world) :
  looked_up (trace (bind m k w))
  = (looked_up (trace (m w))
     ++ match outcome (m w) with
        | inr a => looked_up (trace (k a (final (m w))))
        | inl _ => []
        end)%list.
Proof.
  unfold bind, trace, outcome, final.
  destruct (m w) as [[[e|a] w1] t1]; simpl; [now rewrite app_nil_r|].
  destruct (k a w1) as [[r w2] t2]; simpl. apply looked_up_app.
Qed.

Lemma not_up_to_date_asks path obj w :
  looked_up (trace (not_up_to_date path obj w)) = [snd obj].
Proof.
  unfold not_up_to_date, bind, try_except, last_modified, getmtime, ret, raise, trace.
  simpl.
  destruct (S3.head_object (s3 w) (fst obj) (snd obj)) as [[c|nm]|t]; simpl;
    try reflexivity.
  destruct (Os.stat (fs w) (cwd w) path); reflexivity.
Qed.

Lemma back_up_file_asks bucket_name bucket_dir dir_name file_name w :
  asks_for [s3_full_path_of bucket_dir dir_name file_name]
    (back_up_file bucket_name bucket_dir dir_name file_name w).
Proof.
  assert (looked_up (trace (back_up_file bucket_name bucket_dir dir_name file_name w))
          = [s3_full_path_of bucket_dir dir_name file_name]) as E.
  { unfold back_up_file. rewrite looked_up_bind.
    unfold print_end at 1 2. unfold emit at 1 2. unfold trace at 1, outcome at 1.
    cbv beta iota delta [fst snd looked_up app].
    rewrite looked_up_bind, not_up_to_date_asks.
    destruct (outcome _) as [e|[|]]; [reflexivity| |].
    - rewrite (looked_up_none (trace _)); [reflexivity|].
      apply trace_bind; [one_event | intros; one_event].
    - rewrite (looked_up_none (trace _)); [reflexivity | one_event]. }
  split; [exists []; now rewrite E | intros; exact E].
Qed.

Lemma back_up_dir_asks bucket_name bucket_dir item success w :
  asks_for (map (fun j => s3_full_path_of bucket_dir (fst j) (snd j)) (jobs [item]))
    (back_up_dir bucket_name bucket_dir item success w).
Proof.
  destruct item as [[dir_name subdir_list] file_list].
  unfold jobs. simpl. rewrite app_nil_r, map_map. simpl.
  pose proof (asks_for_each
                (fun f (_ : unit) => back_up_file bucket_name bucket_dir dir_name f)
                (fun f => [s3_full_path_of bucket_dir dir_name f])
                (fun x s w => back_up_file_asks bucket_name bucket_dir dir_name x w)
                file_list tt w) as [[rest Hp] He].
  assert (flat_map (fun f => [s3_full_path_of bucket_dir dir_name f]) file_list
          = map (fun x => s3_full_path_of bucket_dir dir_name x) file_list) as Hfm.
  { clear. induction file_list; simpl; congruence. }
  rewrite Hfm in *.
  unfold back_up_dir, asks_for, bind, print, emit, ret, trace, outcome in *. simpl in *.
  destruct (for_each file_list _ tt w) as [[[e|[]] w1] t1]; simpl in *.
  - split; [now exists rest | discriminate].
  - rewrite looked_up_app. simpl. rewrite app_nil_r. split.
    + now exists rest.
    + intros _ _. now apply (He tt).
Qed.

Lemma jobs_app (l1 l2 : list Os.walk_item) :
  jobs (l1 ++ l2) = (jobs l1 ++ jobs l2)%list.
Proof. unfold jobs. apply flat_map_app. Qed.

(** The walk reaches the files of [rel_files], each under the path it joins
    for the directory from [top]. *)
Lemma jobs_walk_node (n : Os.node) :
  forall top,
    jobs (Os.walk_node top n)
    = map (fun p => (posixpath.join_all top (fst p), snd p)) (rel_files n).
Proof.
  induction n as [t|t es IH] using node_induction; intros top.
  - reflexivity.
  - cbn [Os.walk_node rel_files].
    change (jobs ((top, Os.dirnames es, Os.filenames es) :: ?l))
      with (map (pair top) (Os.filenames es) ++ jobs l)%list.
    rewrite map_app, map_map. f_equal.
    induction es as [|[name c] es IHes]; [reflexivity|].
    inversion IH as [|? ? Hc Hes]; subst.
    rewrite jobs_app, map_app, map_map, (IHes Hes). f_equal.
    apply Hc.
Qed.

Lemma flat_map_jobs (bucket_dir : string) (items : list Os.walk_item) :
  flat_map (fun item => map (fun j => s3_full_path_of bucket_dir (fst j) (snd j))
                          (jobs [item])) items
  = map (fun j => s3_full_path_of bucket_dir (fst j) (snd j)) (jobs items).
Proof.
  induction items as [|item items IH]; [reflexivity|].
  change (item :: items) with ([item] ++ items)%list at 2.
  rewrite jobs_app, map_app, <- IH. reflexivity.
Qed.

(** C1, as stated, fails: [a.txt] lies directly under the root [data], and
    the key [back_up] computes for it is [pfx/data/a.txt], the root's own
    path included, not [pfx/a.txt]. *)
Lemma back_up_key_counterexample :
  Os.stat (fs w_data) (cwd w_data) "data/a.txt" = Some (Os.File 100)
  /\ s3_full_path_of "pfx" "data" "a.txt" = "pfx/data/a.txt"
  /\ trace (back_up ServiceResource Session "data" "bk" "pfx" w_data)
     = [OsWalk "data";
        Print (msg_found "data" ++ Str.nl);
        Print (msg_uploading "a.txt" ++ " "); HeadObject "bk" "pfx/data/a.txt";
        UploadFile "bk" "data/a.txt" "pfx/data/a.txt" true;
        Print (msg_uploaded "a.txt" ++ Str.nl);
        Print (msg_found "data/sub" ++ Str.nl);
        Print (msg_uploading "b.txt" ++ " "); HeadObject "bk" "pfx/data/sub/b.txt";
        UploadFile "bk" "data/sub/b.txt" "pfx/data/sub/b.txt" true;
        Print (msg_uploaded "b.txt" ++ Str.nl);
        Print (msg_found "data/empty" ++ Str.nl)]
  /\ ~ In ("pfx" ++ "/" ++ "a.txt")
          (looked_up (trace (back_up ServiceResource Session "data" "bk" "pfx" w_data))).
Proof.
  split; [reflexivity|]. split; [reflexivity|]. split; [reflexivity|].
  vm_compute. intros [H|[H|[]]]; discriminate H.
Qed.

(** C1, amended: the keys [back_up] computes are, file by file in the order
    of the walk, the prefix, "/", and the path [os.path.join] builds from
    the root path as it was given and the names that lead to the file, with
    every backslash replaced by "/".  A run that returns has computed the
    key of every file under the root; a run that raises, those of the files
    it reached. *)
Theorem back_up_keys
  (s3_client : s3_resource) (session : s3_session)
  (root_dir bucket_name bucket_dir : string) (w : world) (n : Os.node) :
  Os.stat (fs w) (cwd w) root_dir = Some n ->
  let run := back_up s3_client session root_dir bucket_name bucket_dir w in
  (exists rest,
      map (key_of bucket_dir root_dir) (rel_files n)
      = (looked_up (trace run) ++ rest)%list)
  /\ (outcome run = inr tt ->
      looked_up (trace run) = map (key_of bucket_dir root_dir) (rel_files n)).
Proof.
  intros Hstat run.
  assert (map (key_of bucket_dir root_dir) (rel_files n)
          = map (fun j => s3_full_path_of bucket_dir (fst j) (snd j))
              (jobs (Os.walk (fs w) (cwd w) root_dir))) as Hkeys.
  { unfold Os.walk. rewrite Hstat, jobs_walk_node, map_map. reflexivity. }
  rewrite Hkeys, <- flat_map_jobs.
  pose proof (asks_for_each (back_up_dir bucket_name bucket_dir) _
                (fun item s w => back_up_dir_asks bucket_name bucket_dir item s w)
                (Os.walk (fs w) (cwd w) root_dir) false w) as [[rest Hp] He].
  subst run. unfold back_up, bind, os_walk, trace, outcome in *.
  destruct (for_each (Os.walk (fs w) (cwd w) root_dir)
              (back_up_dir bucket_name bucket_dir) false w)
    as [[[e|s'] w1] t1]; simpl in *.
  - split; [now exists rest | discriminate].
  - assert (looked_up
              (t1 ++ snd ((if negb s' then print (msg_no_backup root_dir) else ret tt) w1))
            = looked_up t1) as Hl.
    { rewrite looked_up_app. destruct s'; simpl; now rewrite app_nil_r. }
    destruct ((if negb s' then print (msg_no_backup root_dir) else ret tt) w1)
      as [[r w2] t2] eqn:E; simpl in *.
    rewrite Hl. split; [now exists rest|].
    intros _. now apply (He s').
Qed.

Lemma back_up_keys_witness :
  looked_up (trace (back_up ServiceResource Session "data" "bk" "pfx" w_data))
  = ["pfx/data/a.txt"; "pfx/data/sub/b.txt"].
Proof.
  apply (proj2 (back_up_keys ServiceResource Session "data" "bk" "pfx" w_data
                  (Os.Dir 1 [("a.txt", Os.File 100);
                             ("sub", Os.Dir 2 [("b.txt", Os.File 50)]);
                             ("empty", Os.Dir 2 [])]) eq_refl)).
  reflexivity.
Defined.

(* ================================================================== *)
(** ** A second backup *)

Lemma assoc_set_entry_same {A : Type} (k : string) (v : A) (l : list (string * A)) :
  Os.assoc k (Os.set_entry k v l) = Some v.
Proof.
  induction l as [|[k' v'] l IH]; simpl.
  - now rewrite String.eqb_refl.
  - destruct (String.eqb k' k) eqn:E; simpl.
    + now rewrite String.eqb_refl.
    + now rewrite E.
Qed.

Lemma assoc_put_key_same (k : string) (t : Z) (b : S3.bucket) :
  Os.assoc k (S3.put_key k t b) = Some t.
Proof.
  induction b as [|[k' v'] b IH]; simpl.
  - now rewrite String.eqb_refl.
  - destruct (String.eqb k' k) eqn:E; simpl.
    + now rewrite String.eqb_refl.
    + destruct (String.ltb k k'); simpl.
      * now rewrite String.eqb_refl.
      * now rewrite E.
Qed.

Lemma assoc_put_key_other (k k' : string) (t : Z) (b : S3.bucket) :
  k' <> k -> Os.assoc k' (S3.put_key k t b) = Os.assoc k' b.
Proof.
  intros Hne. apply not_eq_sym in Hne. apply String.eqb_neq in Hne.
  induction b as [|[k0 v0] b IH]; simpl.
  - now rewrite Hne.
  - destruct (String.eqb k0 k) eqn:E; simpl.
    + apply String.eqb_eq in E. subst k0. now rewrite Hne.
    + destruct (String.ltb k k0); simpl.
      * now rewrite Hne.
      * now rewrite IH.
Qed.

(** What the store answers for a key after an upload. *)
Lemma head_after_put (a a' : S3.account) (bucket_name key key' : string) :
  S3.put_object a bucket_name key = inr a' ->
  S3.head_object a' bucket_name key'
  = if String.eqb key' key then inr (S3.s3_clock a)
    else S3.head_object a bucket_name key'.
Proof.
  unfold S3.put_object, S3.head_object. intros H.
  destruct (Os.assoc key (S3.faults a)) eqn:Ef; [discriminate|].
  destruct (Os.assoc bucket_name (S3.buckets a)) as [b|] eqn:Eb; [|discriminate].
  injection H as <-. simpl. rewrite assoc_set_entry_same.
  destruct (String.eqb key' key) eqn:E.
  - apply String.eqb_eq in E. subst key'.
    now rewrite Ef, assoc_put_key_same.
  - apply String.eqb_neq in E. now rewrite (assoc_put_key_other _ _ _ _ E).
Qed.

Lemma put_keeps_clock (a a' : S3.account) (bucket_name key : string) :
  S3.put_object a bucket_name key = inr a' -> S3.s3_clock a' = S3.s3_clock a.
Proof.
  unfold S3.put_object. intros H.
  destruct (Os.assoc key (S3.faults a)); [discriminate|].
  destruct (Os.assoc bucket_name (S3.buckets a)); [|discriminate].
  now injection H as <-.
Qed.

Lemma same_host_refl w : same_host w w.
Proof. repeat split. Qed.

Lemma same_host_trans w1 w2 w3 : same_host w1 w2 -> same_host w2 w3 -> same_host w1 w3.
Proof. unfold same_host. intuition congruence. Qed.

Lemma not_after_store_same_host w w' j :
  same_host w w' -> not_after_store w j -> not_after_store w' j.
Proof.
  intros [Hf [Hc Hs]] H t. unfold not_after_store, local_mtime in *.
  rewrite Hf, Hc, Hs. apply H.
Qed.

(** The change check spelled out. *)
Lemma up_to_date_iff bucket_name bucket_dir w j :
  up_to_date bucket_name bucket_dir w j
  <-> exists n t',
      Os.stat (fs w) (cwd w) (full_path_of (fst j) (snd j)) = Some n
      /\ S3.head_object (s3 w) bucket_name (s3_full_path_of bucket_dir (fst j) (snd j))
         = inr t'
      /\ (Os.mtime_of n <= t')%Z.
Proof.
  unfold up_to_date, not_up_to_date, outcome, bind, try_except, last_modified,
    getmtime, ret, raise. simpl.
  destruct (S3.head_object _ _ _) as [[c|nm]|t']; simpl.
  - split; [discriminate | intros [n [t [_ [H _]]]]; discriminate].
  - split; [discriminate | intros [n [t [_ [H _]]]]; discriminate].
  - destruct (Os.stat _ _ _) as [n|]; simpl.
    + destruct (Z.ltb_spec t' (Os.mtime_of n)); split.
      * discriminate.
      * intros [n' [t [Hn [Ht Hle]]]]. injection Hn as <-. injection Ht as <-. lia.
      * intros _. exists n, t'. repeat split. assumption.
      * reflexivity.
    + split; [discriminate | intros [n [t [H _]]]; discriminate].
Qed.

Lemma upload_file_inv bucket_name path key w w' t :
  upload_file bucket_name path key w = (inr tt, w', t) ->
  exists m a',
    Os.stat (fs w) (cwd w) path = Some (Os.File m)
    /\ S3.put_object (s3 w) bucket_name key = inr a'
    /\ w' = set_s3 a' w.
Proof.
  unfold upload_file. intros H.
  destruct (Os.stat (fs w) (cwd w) path) as [[m|? ?]|]; try discriminate.
  destruct (S3.put_object (s3 w) bucket_name key) as [e|a']; [discriminate|].
  injection H as <- _. now exists m, a'.
Qed.

(** One file of the first run: when [back_up_file] returns, the check for
    this file will answer "up to date", and so it will for every file for
    which it did before. *)
Lemma back_up_file_settles bucket_name bucket_dir dir_name file_name w w' t :
  back_up_file bucket_name bucket_dir dir_name file_name w = (inr tt, w', t) ->
  not_after_store w (dir_name, file_name) ->
  same_host w w'
  /\ up_to_date bucket_name bucket_dir w' (dir_name, file_name)
  /\ (forall j, not_after_store w j ->
                up_to_date bucket_name bucket_dir w j ->
                up_to_date bucket_name bucket_dir w' j).
Proof.
  intros H Hok. unfold back_up_file in H.
  apply bind_inr in H as (u & w1 & t1 & t2 & Hp & H & _).
  unfold print_end, emit in Hp. injection Hp as _ <- _.
  apply bind_inr in H as (stale & w2 & t3 & t4 & Hn & H & _).
  assert (w2 = w) as ->.
  { pose proof (not_up_to_date_final (full_path_of dir_name file_name)
                  (bucket_name, bucket_dir ++ "/" ++ full_path_of dir_name file_name) w)
      as Hf.
    rewrite Hn in Hf. exact Hf. }
  destruct stale.
  - apply bind_inr in H as ([] & w3 & t5 & t6 & Hu & Hpr & _).
    unfold print, emit in Hpr. injection Hpr as <- _.
    apply upload_file_inv in Hu as (m & a' & Hs & Hput & ->).
    pose proof (put_keeps_clock _ _ _ _ Hput) as Hclock.
    split; [repeat split; assumption|].
    split.
    + apply up_to_date_iff. exists (Os.File m), (S3.s3_clock (s3 w)).
      simpl. split; [exact Hs|]. split.
      * rewrite (head_after_put _ _ _ _ _ Hput).
        unfold s3_full_path_of. now rewrite String.eqb_refl.
      * apply (Hok m). unfold local_mtime. simpl. now rewrite Hs.
    + intros j Hj Hup. apply up_to_date_iff in Hup as (n & t' & Hsn & Hh & Hle).
      apply up_to_date_iff. simpl.
      rewrite (head_after_put _ _ _ _ _ Hput).
      destruct (String.eqb _ _).
      * exists n, (S3.s3_clock (s3 w)). repeat split; [assumption|].
        apply (Hj (Os.mtime_of n)). unfold local_mtime. now rewrite Hsn.
      * exists n, t'. now repeat split.
  - unfold print, emit in H. injection H as <- _.
    split; [apply same_host_refl|]. split; [|tauto].
    unfold up_to_date, outcome. simpl. unfold s3_full_path_of. now rewrite Hn.
Qed.

(** One file of the second run: nothing is uploaded and nothing changes. *)
Lemma back_up_file_skips bucket_name bucket_dir dir_name file_name w :
  up_to_date bucket_name bucket_dir w (dir_name, file_name) ->
  exists t,
    back_up_file bucket_name bucket_dir dir_name file_name w = (inr tt, w, t)
    /\ Forall (fun e => is_upload e = false) t.
Proof.
  intros Hup. unfold up_to_date, outcome in Hup. simpl in Hup.
  pose proof (not_up_to_date_final (full_path_of dir_name file_name)
                (bucket_name, s3_full_path_of bucket_dir dir_name file_name) w) as Hf.
  pose proof (not_up_to_date_trace (fun e => is_upload e = false)
                (full_path_of dir_name file_name)
                (bucket_name, s3_full_path_of bucket_dir dir_name file_name) w
                eq_refl eq_refl) as Ht.
  unfold back_up_file, bind, print_end, print, emit, final, trace in *.
  unfold s3_full_path_of in *.
  destruct (not_up_to_date _ _ w) as [[r w1] t1]. simpl in *. subst r w1.
  eexists. split; [reflexivity|].
  constructor; [reflexivity|]. apply Forall_app. split; [assumption|].
  repeat constructor.
Qed.

Section TwoRuns.

Context {A S : Type}.
Variable body : A -> S -> M S.
Variable files_of : A -> list (string * string).
Variables bucket_name bucket_dir : string.

Section First.

Hypothesis body_settles :
  forall x s w s' w' t,
    body x s w = (inr s', w', t) ->
    Forall (not_after_store w) (files_of x) ->
    same_host w w'
    /\ Forall (up_to_date bucket_name bucket_dir w') (files_of x)
    /\ (forall j, not_after_store w j ->
                  up_to_date bucket_name bucket_dir w j ->
                  up_to_date bucket_name bucket_dir w' j).

Lemma loop_settles (l : list A) :
  forall s w s' w' t,
    for_each l body s w = (inr s', w', t) ->
    Forall (not_after_store w) (flat_map files_of l) ->
    same_host w w'
    /\ Forall (up_to_date bucket_name bucket_dir w') (flat_map files_of l)
    /\ (forall j, not_after_store w j ->
                  up_to_date bucket_name bucket_dir w j ->
                  up_to_date bucket_name bucket_dir w' j).
Proof.
  induction l as [|x l IH]; intros s w s' w' t H Hok; simpl in *.
  - unfold ret in H. injection H as _ <- _.
    split; [apply same_host_refl|]. split; [constructor | tauto].
  - apply bind_inr in H as (s1 & w1 & t1 & t2 & Hx & Hl & _).
    apply Forall_app in Hok as [Hokx Hokl].
    destruct (body_settles _ _ _ _ _ _ Hx Hokx) as (Hh1 & Hup1 & Hkeep1).
    assert (Forall (not_after_store w1) (flat_map files_of l)) as Hokl1.
    { eapply Forall_impl; [|exact Hokl].
      intros j. now apply not_after_store_same_host. }
    destruct (IH _ _ _ _ _ Hl Hokl1) as (Hh2 & Hup2 & Hkeep2).
    split; [eapply same_host_trans; eassumption|].
    split.
    + apply Forall_app. split; [|assumption].
      rewrite Forall_forall in *. intros j Hj.
      apply Hkeep2; [|now apply Hup1].
      apply (not_after_store_same_host w); [assumption | now apply Hokx].
    + intros j Hj Hup. apply Hkeep2.
      * now apply (not_after_store_same_host w).
      * now apply Hkeep1.
Qed.

End First.

Section Second.

Hypothesis body_skips :
  forall x s w,
    Forall (up_to_date bucket_name bucket_dir w) (files_of x) ->
    exists s' t,
      body x s w = (inr s', w, t) /\ Forall (fun e => is_upload e = false) t.

Lemma loop_skips (l : list A) :
  forall s w,
    Forall (up_to_date bucket_name bucket_dir w) (flat_map files_of l) ->
    exists s' t,
      for_each l body s w = (inr s', w, t)
      /\ Forall (fun e => is_upload e = false) t.
Proof.
  induction l as [|x l IH]; intros s w Hup; simpl in *.
  - exists s, []. split; [reflexivity | constructor].
  - apply Forall_app in Hup as [Hx Hl].
    destruct (body_skips x s w Hx) as (s1 & t1 & E1 & HF1).
    destruct (IH s1 w Hl) as (s2 & t2 & E2 & HF2).
    exists s2, (t1 ++ t2)%list. unfold bind. rewrite E1, E2.
    split; [reflexivity | apply Forall_app; now split].
Qed.

End Second.

End TwoRuns.

Lemma flat_map_singleton {A B : Type} (f : A -> B) (l : list A) :
  flat_map (fun x => [f x]) l = map f l.
Proof. induction l; simpl; congruence. Qed.

Lemma back_up_dir_settles bucket_name bucket_dir item s w s' w' t :
  back_up_dir bucket_name bucket_dir item s w = (inr s', w', t) ->
  Forall (not_after_store w) (files_of_item item) ->
  same_host w w'
  /\ Forall (up_to_date bucket_name bucket_dir w') (files_of_item item)
  /\ (forall j, not_after_store w j ->
                up_to_date bucket_name bucket_dir w j ->
                up_to_date bucket_name bucket_dir w' j).
Proof.
  destruct item as [[dir_name subdir_list] file_list]. unfold back_up_dir. simpl.
  intros H Hok.
  apply bind_inr in H as (u & w1 & t1 & t2 & Hp & H & _).
  unfold print, emit in Hp. injection Hp as _ <- _.
  apply bind_inr in H as ([] & w2 & t3 & t4 & Hl & Hr & _).
  unfold ret in Hr. injection Hr as _ <- _.
  rewrite <- flat_map_singleton in *.
  apply (loop_settles (fun f (_ : unit) => back_up_file bucket_name bucket_dir dir_name f)
           (fun f => [(dir_name, f)]) bucket_name bucket_dir) with (s := tt) (s' := tt) (t := t3);
    [|assumption|assumption].
  intros x [] w0 [] w0' t0 Hx Hokx.
  inversion Hokx as [|? ? Hj _]; subst.
  destruct (back_up_file_settles _ _ _ _ _ _ _ Hx Hj) as (Hh & Hup & Hkeep).
  split; [assumption|]. split; [|assumption].
  constructor; [assumption | constructor].
Qed.

Lemma back_up_dir_skips bucket_name bucket_dir item s w :
  Forall (up_to_date bucket_name bucket_dir w) (files_of_item item) ->
  exists s' t,
    back_up_dir bucket_name bucket_dir item s w = (inr s', w, t)
    /\ Forall (fun e => is_upload e = false) t.
Proof.
  destruct item as [[dir_name subdir_list] file_list]. unfold back_up_dir. simpl.
  intros Hup. rewrite <- flat_map_singleton in Hup.
  destruct (loop_skips (fun f (_ : unit) => back_up_file bucket_name bucket_dir dir_name f)
              (fun f => [(dir_name, f)]) bucket_name bucket_dir) with (l := file_list) (s := tt) (w := w)
    as (s1 & t1 & E & HF).
  - intros x [] w0 Hx. inversion Hx as [|? ? Hj _]; subst.
    destruct (back_up_file_skips _ _ _ _ _ Hj) as (t0 & E0 & HF0).
    now exists tt, t0.
  - assumption.
  - exists true, (Print (msg_found dir_name ++ Str.nl) :: t1 ++ [])%list.
    unfold bind, print, emit, ret. rewrite E. destruct s1.
    split; [reflexivity|].
    constructor; [reflexivity|]. apply Forall_app. split; [assumption | constructor].
Qed.




(* ================================================================== *)
(** ** From a local path to a key and back *)

Lemma sapp_assoc (a b c : string) : ((a ++ b) ++ c = a ++ (b ++ c))%string.
Proof. induction a as [|x a IH]; simpl; [reflexivity | now rewrite IH]. Qed.

Lemma sapp_nil_r (a : string) : (a ++ "" = a)%string.
Proof. induction a as [|x a IH]; simpl; [reflexivity | now rewrite IH]. Qed.

Lemma has_char_app (c : ascii) (a b : string) :
  Str.has_char c (a ++ b) = Str.has_char c a || Str.has_char c b.
Proof.
  induction a as [|x a IH]; simpl; [reflexivity|]. now rewrite IH, orb_assoc.
Qed.

Lemma split_cons (c : ascii) (r : string) :
  Str.split "/" (String c r)
  = if Ascii.eqb c Str.slash then "" :: Str.split "/" r
    else match Str.split "/" r with
         | h :: t => String c h :: t
         | [] => [String c ""]
         end.
Proof.
  unfold Str.split. cbn [Str.split_from Str.startswith].
  rewrite andb_true_r, (Ascii.eqb_sym "/" c).
  unfold Str.slash. destruct (Ascii.eqb c "/"); reflexivity.
Qed.

Lemma split_name_sep (s r : string) :
  Str.has_char Str.slash s = false ->
  Str.split "/" (s ++ "/" ++ r) = s :: Str.split "/" r.
Proof.
  change ("/" ++ r)%string with (String "/" r).
  induction s as [|c s IH]; intros H.
  - cbn [append]. now rewrite split_cons.
  - cbn [Str.has_char] in H. apply orb_false_iff in H as [Hc Hs].
    cbn [append]. rewrite split_cons, Hc, (IH Hs).
    reflexivity.
Qed.

Lemma split_name (s : string) :
  Str.has_char Str.slash s = false -> Str.split "/" s = [s].
Proof.
  induction s as [|c s IH]; intros H; [reflexivity|].
  cbn [Str.has_char] in H. apply orb_false_iff in H as [Hc Hs].
  now rewrite split_cons, Hc, (IH Hs).
Qed.

Lemma plain_name_inv (s : string) :
  plain_name s = true ->
  Str.nonempty s = true /\ Str.has_char Str.slash s = false
  /\ Str.has_char Str.backslash s = false /\ s <> "." /\ s <> ".." /\ s <> "".
Proof.
  unfold plain_name. rewrite !andb_true_iff, !negb_true_iff.
  intros [[[[H1 H2] H3] H4] H5].
  repeat split; try assumption.
  - now apply String.eqb_neq.
  - now apply String.eqb_neq.
  - intros ->. discriminate H1.
Qed.

Lemma split_join (l : list string) :
  l <> [] -> plain l -> Str.split "/" (Str.join "/" l) = l.
Proof.
  induction l as [|x l IH]; intros Hne Hp; [congruence|].
  inversion Hp as [|? ? Hx Hl]; subst.
  apply plain_name_inv in Hx as (_ & Hs & _).
  destruct l as [|y l].
  - simpl. now apply split_name.
  - change (Str.join "/" (x :: y :: l)) with (x ++ "/" ++ Str.join "/" (y :: l))%string.
    rewrite (split_name_sep _ _ Hs), IH; [reflexivity | discriminate | assumption].
Qed.

Lemma join_app (l1 l2 : list string) :
  l1 <> [] -> l2 <> [] ->
  Str.join "/" (l1 ++ l2) = (Str.join "/" l1 ++ "/" ++ Str.join "/" l2)%string.
Proof.
  induction l1 as [|x l1 IH]; intros H1 H2; [congruence|].
  destruct l1 as [|y l1].
  - destruct l2; [congruence | reflexivity].
  - change (Str.join "/" ((x :: y :: l1) ++ l2))
      with (x ++ "/" ++ Str.join "/" ((y :: l1) ++ l2))%string.
    rewrite IH; [|discriminate|assumption].
    change (Str.join "/" (x :: y :: l1)) with (x ++ "/" ++ Str.join "/" (y :: l1))%string.
    now rewrite !sapp_assoc.
Qed.

Lemma join_has_char (c : ascii) (l : list string) :
  c <> Str.slash ->
  Forall (fun s => Str.has_char c s = false) l ->
  Str.has_char c (Str.join "/" l) = false.
Proof.
  intros Hc. induction l as [|x l IH]; intros H; [reflexivity|].
  inversion H as [|? ? Hx Hl]; subst.
  destruct l as [|y l]; [exact Hx|].
  change (Str.join "/" (x :: y :: l)) with (x ++ "/" ++ Str.join "/" (y :: l))%string.
  rewrite !has_char_app, Hx, (IH Hl). cbn [Str.has_char].
  apply not_eq_sym in Hc. apply Ascii.eqb_neq in Hc. unfold Str.slash in Hc.
  now rewrite Hc.
Qed.

Lemma replace_none (old new : ascii) (s : string) :
  Str.has_char old s = false -> Str.replace old new s = s.
Proof.
  induction s as [|c s IH]; intros H; [reflexivity|].
  cbn [Str.has_char Str.replace] in *.
  apply orb_false_iff in H as [Hc Hs]. now rewrite Hc, (IH Hs).
Qed.

Lemma join_nonempty (x : string) (l : list string) :
  Str.nonempty x = true -> Str.nonempty (Str.join "/" (x :: l)) = true.
Proof.
  intros H. destruct x; [discriminate|]. destruct l; reflexivity.
Qed.

Lemma join_not_abs (x : string) (l : list string) :
  plain_name x = true -> Str.startswith "/" (Str.join "/" (x :: l)) = false.
Proof.
  intros H. apply plain_name_inv in H as (Hn & Hs & _).
  destruct x as [|c x]; [discriminate|]. cbn [Str.has_char] in Hs.
  apply orb_false_iff in Hs as [Hc _].
  assert (Str.startswith "/" (String c x ++ "/" ++ Str.join "/" l) = false
          /\ Str.startswith "/" (String c x) = false) as [H1 H2].
  { cbn [append Str.startswith]. rewrite (Ascii.eqb_sym "/" c).
    unfold Str.slash in Hc. now rewrite Hc. }
  destruct l; assumption.
Qed.

Lemma last_char_app (a b : string) :
  Str.nonempty b = true -> Str.last_char (a ++ b) = Str.last_char b.
Proof.
  intros Hb. induction a as [|c a IH]; [reflexivity|].
  cbn [append]. destruct (a ++ b)%string as [|d s] eqn:E.
  - destruct a; [|discriminate]. cbn [append] in E. subst b. discriminate.
  - rewrite <- IH. reflexivity.
Qed.

Lemma ends_with_sep_app (a b : string) :
  Str.nonempty b = true ->
  posixpath.ends_with_sep (a ++ b) = posixpath.ends_with_sep b.
Proof.
  intros Hb. unfold posixpath.ends_with_sep. now rewrite last_char_app.
Qed.

Lemma name_no_sep_end (s : string) :
  Str.has_char Str.slash s = false -> posixpath.ends_with_sep s = false.
Proof.
  unfold posixpath.ends_with_sep.
  induction s as [|c s IH]; intros H; [reflexivity|].
  cbn [Str.has_char] in H. apply orb_false_iff in H as [Hc Hs].
  destruct s as [|d s]; [exact Hc|]. exact (IH Hs).
Qed.

Lemma join_no_sep_end (l : list string) :
  l <> [] -> plain l -> posixpath.ends_with_sep (Str.join "/" l) = false.
Proof.
  induction l as [|x l IH]; intros Hne Hp; [congruence|].
  inversion Hp as [|? ? Hx Hl]; subst.
  destruct l as [|y l].
  - apply plain_name_inv in Hx as (_ & Hs & _). now apply name_no_sep_end.
  - change (Str.join "/" (x :: y :: l)) with (x ++ "/" ++ Str.join "/" (y :: l))%string.
    rewrite <- sapp_assoc, ends_with_sep_app.
    + apply IH; [discriminate | assumption].
    + inversion Hl; subst. apply join_nonempty.
      now apply plain_name_inv in H1 as (? & _).
Qed.

(** [os.path.join] of a path made of plain names and one more name. *)
Lemma join_plain (l : list string) (b : string) :
  l <> [] -> plain l -> plain_name b = true ->
  posixpath.join (Str.join "/" l) b = Str.join "/" (l ++ [b]).
Proof.
  intros Hne Hp Hb.
  pose proof (join_not_abs b [] Hb) as Hrel. cbn [Str.join] in Hrel.
  unfold posixpath.join, posixpath.sep. rewrite Hrel.
  rewrite (join_no_sep_end l Hne Hp).
  destruct l as [|x l]; [congruence|].
  inversion Hp as [|? ? Hx Hl]; subst.
  apply plain_name_inv in Hx as (Hn & _).
  rewrite (join_nonempty x l Hn). cbn [negb orb].
  rewrite join_app; [reflexivity | discriminate | discriminate].
Qed.

Lemma plain_app (l1 l2 : list string) : plain (l1 ++ l2) <-> plain l1 /\ plain l2.
Proof. apply Forall_app. Qed.

Lemma join_all_plain (p l : list string) :
  l <> [] -> plain l -> plain p ->
  posixpath.join_all (Str.join "/" l) p = Str.join "/" (l ++ p).
Proof.
  revert l. induction p as [|b p IH]; intros l Hne Hl Hp.
  - now rewrite app_nil_r.
  - inversion Hp as [|? ? Hb Hp']; subst.
    unfold posixpath.join_all. cbn [fold_left].
    rewrite (join_plain l b Hne Hl Hb).
    change (fold_left posixpath.join p (Str.join "/" (l ++ [b])))
      with (posixpath.join_all (Str.join "/" (l ++ [b])) p).
    rewrite IH.
    + now rewrite <- app_assoc.
    + destruct l; discriminate.
    + apply plain_app. split; [assumption | now constructor].
    + assumption.
Qed.

Lemma norm_comps_plain (rooted : bool) (l : list string) :
  plain l ->
  forall acc, posixpath.norm_comps rooted acc l = (rev acc ++ l)%list.
Proof.
  induction 1 as [|x l Hx Hl IH]; intros acc.
  - cbn [posixpath.norm_comps]. now rewrite app_nil_r.
  - apply plain_name_inv in Hx as (_ & _ & _ & Hd & Hdd & He).
    cbn [posixpath.norm_comps].
    apply String.eqb_neq in Hd, Hdd, He.
    unfold posixpath.curdir, posixpath.pardir. rewrite He, Hd, Hdd.
    cbn [orb negb]. rewrite IH. cbn [rev]. now rewrite <- app_assoc.
Qed.

Lemma filter_nonempty_plain (l : list string) :
  plain l -> filter Str.nonempty l = l.
Proof.
  induction 1 as [|x l Hx Hl IH]; [reflexivity|].
  apply plain_name_inv in Hx as (Hn & _). cbn [filter]. now rewrite Hn, IH.
Qed.

(** The absolute path of plain names under the root directory is left as
    it is by [normpath]. *)
Lemma normpath_rooted (l : list string) :
  l <> [] -> plain l ->
  posixpath.normpath ("/" ++ Str.join "/" l) = ("/" ++ Str.join "/" l)%string.
Proof.
  intros Hne Hp. destruct l as [|x l]; [congruence|].
  inversion Hp as [|? ? Hx Hl]; subst.
  pose proof (join_not_abs x l Hx) as Hrel.
  pose proof (join_nonempty x l (proj1 (plain_name_inv x Hx))) as Hn.
  pose proof (split_join (x :: l) Hne Hp) as Hsplit.
  destruct (Str.join "/" (x :: l)) as [|c s] eqn:E; [discriminate|].
  change ("/" ++ String c s)%string with (String "/" (String c s)).
  unfold posixpath.normpath, posixpath.sep.
  assert (Str.startswith "/" (String "/" (String c s)) = true) as -> by reflexivity.
  assert (Str.startswith "//" (String "/" (String c s)) = false) as ->.
  { cbn [Str.startswith] in *. rewrite Ascii.eqb_refl. cbn [andb]. exact Hrel. }
  cbn [andb]. rewrite split_cons. unfold Str.slash. rewrite Ascii.eqb_refl.
  rewrite Hsplit.
  change (posixpath.norm_comps (0 <? 1)%nat [] ("" :: x :: l))
    with (posixpath.norm_comps true [] (x :: l)).
  rewrite (norm_comps_plain true (x :: l) Hp []). cbn [rev app].
  rewrite E. reflexivity.
Qed.

Lemma parts_rooted (l : list string) :
  l <> [] -> plain l -> posixpath.parts ("/" ++ Str.join "/" l) = l.
Proof.
  intros Hne Hp. unfold posixpath.parts, posixpath.sep.
  change ("/" ++ Str.join "/" l)%string with (String "/" (Str.join "/" l)).
  rewrite split_cons. unfold Str.slash. rewrite Ascii.eqb_refl.
  rewrite (split_join l Hne Hp). cbn [filter Str.nonempty].
  now apply filter_nonempty_plain.
Qed.

(** [abspath] of a relative path of plain names, in a working directory of
    plain names. *)
Lemma abspath_plain (cs l : list string) :
  l <> [] -> plain cs -> plain l ->
  posixpath.abspath ("/" ++ Str.join "/" cs) (Str.join "/" l)
  = ("/" ++ Str.join "/" (cs ++ l))%string.
Proof.
  intros Hne Hcs Hl. unfold posixpath.abspath, posixpath.isabs, posixpath.sep.
  destruct l as [|x l]; [congruence|].
  inversion Hl as [|? ? Hx Hl']; subst.
  rewrite (join_not_abs x l Hx).
  assert (posixpath.join ("/" ++ Str.join "/" cs) (Str.join "/" (x :: l))
          = ("/" ++ Str.join "/" (cs ++ x :: l))%string) as ->.
  { unfold posixpath.join, posixpath.sep. rewrite (join_not_abs x l Hx).
    destruct cs as [|c cs].
    - reflexivity.
    - change ("/" ++ Str.join "/" (c :: cs))%string
        with (String "/" (Str.join "/" (c :: cs))).
      cbn [Str.nonempty negb orb].
      change (String "/" (Str.join "/" (c :: cs)))
        with ("/" ++ Str.join "/" (c :: cs))%string.
      rewrite ends_with_sep_app.
      + rewrite (join_no_sep_end (c :: cs)); [|discriminate|assumption].
        rewrite join_app; [|discriminate|discriminate].
        now rewrite !sapp_assoc.
      + inversion Hcs; subst. apply join_nonempty.
        now apply plain_name_inv in H1 as (? & _). }
  apply normpath_rooted.
  - destruct cs; discriminate.
  - apply plain_app. now split.
Qed.

Lemma common_len_app (l1 l2 : list string) :
  posixpath.common_len l1 (l1 ++ l2) = List.length l1.
Proof.
  induction l1 as [|x l1 IH]; [destruct l2; reflexivity|].
  cbn [posixpath.common_len app List.length]. now rewrite String.eqb_refl, IH.
Qed.

Lemma skipn_length_app {A : Type} (l1 l2 : list A) :
  skipn (List.length l1) (l1 ++ l2) = l2.
Proof. induction l1; simpl; auto. Qed.

(** [relpath] gives back what was appended to the start path. *)
Lemma relpath_plain (cs xs l : list string) :
  xs <> [] -> l <> [] -> plain cs -> plain xs -> plain l ->
  posixpath.relpath ("/" ++ Str.join "/" cs)
    (Str.join "/" xs ++ "/" ++ Str.join "/" l) (Str.join "/" xs)
  = Some (Str.join "/" l).
Proof.
  intros Hxs Hl Pcs Pxs Pl.
  rewrite <- (join_app xs l Hxs Hl).
  assert ((xs ++ l)%list <> []) as Hne by (destruct xs; [congruence | discriminate]).
  assert (plain (xs ++ l)%list) as Pxl by (apply plain_app; now split).
  unfold posixpath.relpath.
  destruct (Str.join "/" (xs ++ l)%list) as [|c s] eqn:E.
  { destruct xs as [|x xs]; [congruence|].
    inversion Pxs; subst.
    pose proof (join_nonempty x (xs ++ l)%list (proj1 (plain_name_inv x H1))) as Hn.
    cbn [app] in E. rewrite E in Hn. discriminate. }
  rewrite <- E.
  rewrite (abspath_plain cs xs Hxs Pcs Pxs), (abspath_plain cs (xs ++ l)%list Hne Pcs Pxl).
  rewrite !parts_rooted.
  - rewrite app_assoc, common_len_app, Nat.sub_diag, skipn_length_app.
    cbn [repeat app].
    destruct l as [|a p]; [congruence|].
    inversion Pl as [|? ? Ha Pp]; subst.
    change a with (Str.join "/" [a]) at 1.
    rewrite join_all_plain; [reflexivity | discriminate | now constructor | assumption].
  - destruct cs; [assumption | discriminate].
  - apply plain_app. now split.
  - destruct cs; [assumption | discriminate].
  - apply plain_app. now split.
Qed.

Lemma plain_no_backslash (l : list string) :
  plain l -> Forall (fun s => Str.has_char Str.backslash s = false) l.
Proof.
  apply Forall_impl. intros s H. now apply plain_name_inv in H as (_ & _ & ? & _).
Qed.

(** C2, as stated, fails: for the root [data], the relative path [a.txt] and
    the prefix [pfx], the key is [pfx/data/a.txt]; the restore side takes it
    to [data/a.txt], the root's own path included, and so restores it under
    [data] as [data/data/a.txt]. *)
Lemma round_trip_counterexample :
  let key := key_of "pfx" "data" ([], "a.txt") in
  key = "pfx/data/a.txt"
  /\ posixpath.relpath (getcwd w_data) key "pfx" = Some "data/a.txt"
  /\ posixpath.relpath (getcwd w_data) key "pfx" <> Some "a.txt"
  /\ target_of (Some "data") "pfx" key w_data = (inr "data/data/a.txt", w_data, []).
Proof.
  repeat split; try reflexivity. discriminate.
Qed.

(** C2, amended: for a prefix X, a root R and a path P below it, all made
    of plain names, and whatever plain working directory, the backup side
    maps the file R/P to the key X/R/P, and the restore side maps that key
    back to R/P, the path as it was walked with the root's own path in
    front, which it then joins to the directory restored into. *)
Theorem restore_path_of_back_up_key
  (cs xs rs ps : list string) (file_name out : string) :
  xs <> [] -> rs <> [] ->
  plain cs -> plain xs -> plain rs -> plain ps -> plain_name file_name = true ->
  let X := Str.join "/" xs in
  let R := Str.join "/" rs in
  let walked := Str.join "/" (rs ++ ps ++ [file_name]) in
  let key := key_of X R (ps, file_name) in
  key = (X ++ "/" ++ walked)%string
  /\ posixpath.relpath ("/" ++ Str.join "/" cs) key X = Some walked
  /\ target_path ("/" ++ Str.join "/" cs) (Some out) X key
     = Some (posixpath.join out walked).
Proof.
  intros Hxs Hrs Pcs Pxs Prs Pps Pf X R walked key.
  assert (plain (rs ++ ps ++ [file_name])) as Pall.
  { apply plain_app. split; [assumption|]. apply plain_app.
    split; [assumption | now constructor]. }
  assert ((rs ++ ps ++ [file_name])%list <> []) as Hne by (destruct rs; [congruence | discriminate]).
  assert (key = (X ++ "/" ++ walked)%string) as Hkey.
  { subst key walked X R. unfold key_of. cbn [fst snd].
    rewrite (join_all_plain ps rs Hrs Prs Pps).
    rewrite join_plain.
    - rewrite <- app_assoc. rewrite replace_none; [reflexivity|].
      apply join_has_char; [discriminate|]. now apply plain_no_backslash.
    - destruct rs; [congruence | discriminate].
    - apply plain_app. now split.
    - assumption. }
  assert (posixpath.relpath ("/" ++ Str.join "/" cs) key X = Some walked) as Hrel.
  { rewrite Hkey. subst X walked. now apply relpath_plain. }
  split; [exact Hkey|]. split; [exact Hrel|].
  unfold target_path. now rewrite Hrel.
Qed.

Lemma restore_path_of_back_up_key_witness :
  key_of "pfx" "data" (["sub"], "b.txt") = "pfx/data/sub/b.txt"
  /\ posixpath.relpath "/home/u" (key_of "pfx" "data" (["sub"], "b.txt")) "pfx"
     = Some "data/sub/b.txt"
  /\ target_path "/home/u" (Some "out") "pfx" (key_of "pfx" "data" (["sub"], "b.txt"))
     = Some "out/data/sub/b.txt".
Proof.
  apply (restore_path_of_back_up_key ["home"; "u"] ["pfx"] ["data"] ["sub"] "b.txt" "out");
    try discriminate; try reflexivity; repeat constructor.
Defined.

(* ================================================================== *)
(** ** What a run keeps *)

Lemma final_bind {A B : Type} (m : M A) (k : A -> M B) (w : world) :
  final (bind m k w)
  = match outcome (m w) with
    | inr a => final (k a (final (m w)))
    | inl _ => final (m w)
    end.
Proof.
  unfold bind, final, outcome.
  destruct (m w) as [[[e|a] w1] t1]; simpl; [reflexivity|].
  destruct (k a w1) as [[r w2] t2]. reflexivity.
Qed.

Section Keeps.

Variable R : world -> world -> Prop.
Hypothesis R_refl : forall w, R w w.
Hypothesis R_trans : forall w1 w2 w3, R w1 w2 -> R w2 w3 -> R w1 w3.

Lemma keeps_ret {A : Type} (a : A) : keeps R (ret a).
Proof. intros w. apply R_refl. Qed.

Lemma keeps_raise {A : Type} (e : exn) : keeps R (@raise A e).
Proof. intros w. apply R_refl. Qed.

Lemma keeps_same {A : Type} (m : M A) : (forall w, final (m w) = w) -> keeps R m.
Proof. intros H w. rewrite H. apply R_refl. Qed.

Lemma keeps_bind {A B : Type} (m : M A) (k : A -> M B) :
  keeps R m -> (forall a, keeps R (k a)) -> keeps R (bind m k).
Proof.
  intros Hm Hk w. rewrite final_bind.
  destruct (outcome (m w)) as [e|a]; [apply Hm|].
  eapply R_trans; [apply Hm | apply Hk].
Qed.

Lemma keeps_try_except {A : Type} (m : M A) (h : exn -> M A) :
  keeps R m -> (forall e, keeps R (h e)) -> keeps R (try_except m h).
Proof.
  intros Hm Hh w. specialize (Hm w). unfold try_except, final in *.
  destruct (m w) as [[[e|a] w1] t1]; simpl in *; [|assumption].
  specialize (Hh e w1). unfold final in Hh.
  destruct (h e w1) as [[r w2] t2]; simpl in *.
  eapply R_trans; eassumption.
Qed.

Lemma keeps_for_each {A S : Type} (body : A -> S -> M S) (l : list A) :
  (forall x s, keeps R (body x s)) -> forall s, keeps R (for_each l body s).
Proof.
  intros Hb. induction l as [|x l IH]; intros s; simpl.
  - apply keeps_ret.
  - apply keeps_bind; [apply Hb | intros; apply IH].
Qed.

End Keeps.

Lemma host_kept_refl w : host_kept w w.
Proof. repeat split. Qed.

Lemma host_kept_trans w1 w2 w3 : host_kept w1 w2 -> host_kept w2 w3 -> host_kept w1 w3.
Proof. unfold host_kept. intuition congruence. Qed.

Lemma store_kept_refl w : store_kept w w.
Proof. repeat split. Qed.

Lemma store_kept_trans w1 w2 w3 :
  store_kept w1 w2 -> store_kept w2 w3 -> store_kept w1 w3.
Proof. unfold store_kept. intuition congruence. Qed.

Lemma set_entry_names {A : Type} (k : string) (v v' : A) (l : list (string * A)) :
  Os.assoc k l = Some v' -> map fst (Os.set_entry k v l) = map fst l.
Proof.
  induction l as [|[k0 v0] l IH]; simpl; [discriminate|].
  destruct (String.eqb k0 k) eqn:E; simpl.
  - apply String.eqb_eq in E. now subst.
  - intros H. now rewrite (IH H).
Qed.

Lemma put_object_keeps (a a' : S3.account) (bucket_name key : string) :
  S3.put_object a bucket_name key = inr a' ->
  map fst (S3.buckets a') = map fst (S3.buckets a)
  /\ S3.taken a' = S3.taken a /\ S3.faults a' = S3.faults a
  /\ S3.region_name a' = S3.region_name a /\ S3.s3_clock a' = S3.s3_clock a.
Proof.
  unfold S3.put_object. intros H.
  destruct (Os.assoc key (S3.faults a)); [discriminate|].
  destruct (Os.assoc bucket_name (S3.buckets a)) as [b|] eqn:Eb; [|discriminate].
  injection H as <-. simpl. repeat split.
  now apply (set_entry_names _ _ b).
Qed.

Lemma upload_file_keeps bucket_name path key : keeps host_kept (upload_file bucket_name path key).
Proof.
  intros w. unfold upload_file, final.
  destruct (Os.stat (fs w) (cwd w) path) as [[m|? ?]|]; simpl;
    try apply host_kept_refl.
  destruct (S3.put_object (s3 w) bucket_name key) as [e|a'] eqn:E; simpl;
    [apply host_kept_refl|].
  apply put_object_keeps in E as (H1 & H2 & H3 & H4 & H5).
  unfold host_kept. simpl. repeat split; assumption.
Qed.

Lemma back_up_file_keeps bucket_name bucket_dir dir_name file_name :
  keeps host_kept (back_up_file bucket_name bucket_dir dir_name file_name).
Proof.
  unfold back_up_file.
  apply (keeps_bind _ host_kept_trans); [now apply keeps_same|].
  intros _. apply (keeps_bind _ host_kept_trans).
  - apply keeps_same; [apply host_kept_refl|]. intros w. apply not_up_to_date_final.
  - intros [|].
    + apply (keeps_bind _ host_kept_trans); [apply upload_file_keeps|].
      intros _. now apply keeps_same.
    + now apply keeps_same.
Qed.

Lemma back_up_dir_keeps bucket_name bucket_dir item success :
  keeps host_kept (back_up_dir bucket_name bucket_dir item success).
Proof.
  destruct item as [[dir_name subdir_list] file_list]. unfold back_up_dir.
  apply (keeps_bind _ host_kept_trans); [now apply keeps_same|].
  intros _. apply (keeps_bind _ host_kept_trans).
  - apply (keeps_for_each _ host_kept_refl host_kept_trans).
    intros. apply back_up_file_keeps.
  - intros. now apply keeps_same.
Qed.

Lemma back_up_keeps s3_client session root_dir bucket_name bucket_dir :
  keeps host_kept (back_up s3_client session root_dir bucket_name bucket_dir).
Proof.
  unfold back_up.
  apply (keeps_bind _ host_kept_trans); [now apply keeps_same|].
  intros items. apply (keeps_bind _ host_kept_trans).
  - apply (keeps_for_each _ host_kept_refl host_kept_trans).
    intros. apply back_up_dir_keeps.
  - intros [|]; now apply keeps_same.
Qed.

Lemma back_up_file_reads_host bucket_name bucket_dir dir_name file_name w :
  Forall (fun e => writes_host e = false)
    (trace (back_up_file bucket_name bucket_dir dir_name file_name w)).
Proof.
  unfold back_up_file.
  apply trace_bind; [one_event|]. intros _ w1.
  apply trace_bind; [now apply not_up_to_date_trace|]. intros [|] w2.
  - apply trace_bind; [one_event | intros; one_event].
  - one_event.
Qed.

(** X1: [back_up] only reads the host and only adds to the store.  Whether
    it returns or raises, the file tree, the working directory and the
    clock are as before, the account has the same buckets, and the run made
    no directory and downloaded nothing. *)
Theorem back_up_reads_host
  (s3_client : s3_resource) (session : s3_session)
  (root_dir bucket_name bucket_dir : string) (w : world) :
  let run := back_up s3_client session root_dir bucket_name bucket_dir w in
  fs (final run) = fs w
  /\ cwd (final run) = cwd w
  /\ map fst (S3.buckets (s3 (final run))) = map fst (S3.buckets (s3 w))
  /\ Forall (fun e => writes_host e = false) (trace run).
Proof.
  intros run. subst run.
  destruct (back_up_keeps s3_client session root_dir bucket_name bucket_dir w)
    as (H1 & H2 & _ & H4 & _).
  repeat split; try assumption.
  unfold back_up. apply trace_bind; [one_event|]. intros items w1.
  apply trace_bind.
  - apply trace_for_each. intros [[d sd] fl] s w2. unfold back_up_dir.
    apply trace_bind; [one_event|]. intros _ w3.
    apply trace_bind; [|intros; apply trace_ret].
    apply trace_for_each. intros. apply back_up_file_reads_host.
  - intros [|] w2; one_event.
Qed.

Lemma makedirs_keeps path : keeps store_kept (makedirs path).
Proof.
  intros w. unfold makedirs, final.
  destruct (Os.makedirs (clock w) (fs w) (cwd w) path) as [n [e|]]; simpl;
    repeat split.
Qed.

Lemma download_file_keeps bucket_name key path :
  keeps store_kept (download_file bucket_name key path).
Proof.
  intros w. unfold download_file, final.
  destruct (S3.get_object (s3 w) bucket_name key); simpl; [repeat split|].
  destruct (Os.write_file (clock w) (fs w) (cwd w) path); simpl; repeat split.
Qed.

Lemma restore_object_keeps root_dir bucket_name bucket_dir key success :
  keeps store_kept (restore_object root_dir bucket_name bucket_dir key success).
Proof.
  unfold restore_object.
  apply (keeps_bind _ store_kept_trans).
  { destruct root_dir as [r|]; unfold target_of; [|apply keeps_ret, store_kept_refl].
    apply (keeps_bind _ store_kept_trans).
    - apply keeps_same; [apply store_kept_refl|]. intros w. unfold relpath, final.
      reflexivity.
    - intros. apply keeps_ret, store_kept_refl. }
  intros target. apply (keeps_bind _ store_kept_trans); [now apply keeps_same|].
  intros [|]; cbn [negb].
  - apply (keeps_bind _ store_kept_trans); [apply keeps_ret, store_kept_refl|].
    intros [|]; [apply keeps_ret, store_kept_refl|].
    apply (keeps_bind _ store_kept_trans); [apply download_file_keeps|].
    intros. apply keeps_ret, store_kept_refl.
  - apply (keeps_bind _ store_kept_trans).
    + apply (keeps_bind _ store_kept_trans); [apply makedirs_keeps|].
      intros _. destruct (Str.last_char key);
        [apply keeps_ret | apply keeps_raise]; apply store_kept_refl.
    + intros [|]; [apply keeps_ret, store_kept_refl|].
      apply (keeps_bind _ store_kept_trans); [apply download_file_keeps|].
      intros. apply keeps_ret, store_kept_refl.
Qed.

Lemma restore_object_reads_store root_dir bucket_name bucket_dir key success w :
  Forall (fun e => writes_store e = false)
    (trace (restore_object root_dir bucket_name bucket_dir key success w)).
Proof.
  unfold restore_object.
  apply trace_bind.
  { destruct root_dir as [r|]; unfold target_of; [|apply trace_ret].
    apply trace_bind; [one_event | intros; apply trace_ret]. }
  intros target w1. apply trace_bind; [one_event|].
  intros [|] w2; cbn [negb].
  - apply trace_bind; [apply trace_ret|].
    intros [|] w3; [apply trace_ret|].
    apply trace_bind; [one_event | intros; apply trace_ret].
  - apply trace_bind.
    + apply trace_bind; [one_event|]. intros _ w3.
      destruct (Str.last_char key); [apply trace_ret | apply trace_raise].
    + intros [|] w3; [apply trace_ret|].
      apply trace_bind; [one_event | intros; apply trace_ret].
Qed.

(** X2: [restore] only reads the store.  Whether it returns or raises, the
    account (buckets, objects and their times) is as before, and the run
    uploaded nothing and created no bucket. *)
Theorem restore_reads_store
  (s3_client : s3_resource) (session : s3_session)
  (root_dir : option string) (bucket_name bucket_dir : string) (w : world) :
  let run := restore s3_client session root_dir bucket_name bucket_dir w in
  s3 (final run) = s3 w
  /\ cwd (final run) = cwd w
  /\ Forall (fun e => writes_store e = false) (trace run).
Proof.
  intros run. subst run.
  assert (keeps store_kept (restore s3_client session root_dir bucket_name bucket_dir))
    as Hk.
  { unfold restore.
    apply (keeps_bind _ store_kept_trans); [now apply keeps_same|].
    intros names. destruct (negb _); [now apply keeps_same|].
    apply (keeps_bind _ store_kept_trans); [now apply keeps_same|].
    intros keys. apply (keeps_bind _ store_kept_trans).
    - apply (keeps_for_each _ store_kept_refl store_kept_trans).
      intros. apply restore_object_keeps.
    - intros [|]; [|now apply keeps_same].
      destruct root_dir; [now apply keeps_same | apply keeps_raise, store_kept_refl]. }
  destruct (Hk w) as (H1 & H2 & _).
  split; [assumption|]. split; [assumption|].
  unfold restore. apply trace_bind; [one_event|]. intros names w1.
  destruct (negb _); [one_event|].
  apply trace_bind; [one_event|]. intros keys w2.
  apply trace_bind.
  - apply trace_for_each. intros. apply restore_object_reads_store.
  - intros [|] w3; [|one_event].
    destruct root_dir; [one_event | apply trace_raise].
Qed.

(* ================================================================== *)
(** ** What a backup leaves in the store *)

Lemma objects_kept_refl b w : objects_kept b w w.
Proof. split; [reflexivity | intros; now left]. Qed.

Lemma objects_kept_trans b w1 w2 w3 :
  objects_kept b w1 w2 -> objects_kept b w2 w3 -> objects_kept b w1 w3.
Proof.
  intros [Hc1 H1] [Hc2 H2]. split; [congruence|].
  intros key t H. destruct (H1 key t H) as [H'|H'];
    destruct (H2 _ _ H') as [H''|H'']; rewrite ?Hc1 in H''; auto.
Qed.

Lemma stored_kept b w w' key :
  objects_kept b w w' -> stored b w key -> stored b w' key.
Proof.
  intros [_ H] [t Ht]. destruct (H key t Ht); eexists; eassumption.
Qed.

Lemma upload_file_keeps_objects b bucket_name path key :
  keeps (objects_kept b) (upload_file bucket_name path key).
Proof.
  intros w. unfold upload_file, final.
  destruct (Os.stat (fs w) (cwd w) path) as [[m|? ?]|]; simpl;
    try apply objects_kept_refl.
  destruct (S3.put_object (s3 w) bucket_name key) as [e|a'] eqn:E; simpl;
    [apply objects_kept_refl|].
  split; simpl.
  - now apply put_keeps_clock in E.
  - intros key' t H.
    destruct (String.eqb b bucket_name) eqn:Eb.
    + apply String.eqb_eq in Eb. subst b.
      rewrite (head_after_put _ _ _ _ key' E).
      destruct (String.eqb key' key); auto.
    + left. revert H. unfold S3.put_object in E.
      destruct (Os.assoc key (S3.faults (s3 w))) eqn:Ef; [discriminate|].
      destruct (Os.assoc bucket_name (S3.buckets (s3 w))) as [bk|] eqn:Ebk;
        [|discriminate].
      injection E as <-. unfold S3.head_object. simpl.
      assert (Os.assoc b (Os.set_entry bucket_name
                            (S3.put_key key (S3.s3_clock (s3 w)) bk)
                            (S3.buckets (s3 w)))
              = Os.assoc b (S3.buckets (s3 w))) as ->; [|tauto].
      apply String.eqb_neq in Eb. clear -Eb.
      induction (S3.buckets (s3 w)) as [|[k0 v0] l IH]; simpl.
      * apply not_eq_sym in Eb. apply String.eqb_neq in Eb. now rewrite Eb.
      * destruct (String.eqb k0 bucket_name) eqn:E0; simpl.
        -- apply String.eqb_eq in E0. subst k0.
           apply not_eq_sym in Eb. apply String.eqb_neq in Eb. now rewrite Eb.
        -- now rewrite IH.
Qed.

Lemma back_up_file_keeps_objects b bucket_name bucket_dir dir_name file_name :
  keeps (objects_kept b) (back_up_file bucket_name bucket_dir dir_name file_name).
Proof.
  unfold back_up_file.
  apply (keeps_bind _ (objects_kept_trans b));
    [apply keeps_same; [apply objects_kept_refl | reflexivity]|].
  intros _. apply (keeps_bind _ (objects_kept_trans b)).
  - apply keeps_same; [apply objects_kept_refl|]. intros w. apply not_up_to_date_final.
  - intros [|].
    + apply (keeps_bind _ (objects_kept_trans b)); [apply upload_file_keeps_objects|].
      intros _. apply keeps_same; [apply objects_kept_refl | reflexivity].
    + apply keeps_same; [apply objects_kept_refl | reflexivity].
Qed.

Lemma back_up_dir_keeps_objects b bucket_name bucket_dir item success :
  keeps (objects_kept b) (back_up_dir bucket_name bucket_dir item success).
Proof.
  destruct item as [[dir_name subdir_list] file_list]. unfold back_up_dir.
  apply (keeps_bind _ (objects_kept_trans b));
    [apply keeps_same; [apply objects_kept_refl | reflexivity]|].
  intros _. apply (keeps_bind _ (objects_kept_trans b)).
  - apply (keeps_for_each _ (objects_kept_refl b) (objects_kept_trans b)).
    intros. apply back_up_file_keeps_objects.
  - intros. apply keeps_ret, objects_kept_refl.
Qed.

(** X3: [back_up] removes nothing from the store.  Whether it returns or
    raises, every object the store answered for before the run, in whatever
    bucket, is still answered for after it, with the time it had or stamped
    anew with the time of the store's clock. *)
Theorem back_up_keeps_objects
  (s3_client : s3_resource) (session : s3_session)
  (root_dir bucket_name bucket_dir : string) (w : world)
  (any_bucket key : string) (t : Z) :
  S3.head_object (s3 w) any_bucket key = inr t ->
  let w' := final (back_up s3_client session root_dir bucket_name bucket_dir w) in
  S3.head_object (s3 w') any_bucket key = inr t
  \/ S3.head_object (s3 w') any_bucket key = inr (S3.s3_clock (s3 w)).
Proof.
  intros H w'. subst w'.
  assert (keeps (objects_kept any_bucket)
            (back_up s3_client session root_dir bucket_name bucket_dir)) as Hk.
  { unfold back_up.
    apply (keeps_bind _ (objects_kept_trans any_bucket));
      [apply keeps_same; [apply objects_kept_refl | reflexivity]|].
    intros items. apply (keeps_bind _ (objects_kept_trans any_bucket)).
    - apply (keeps_for_each _ (objects_kept_refl any_bucket)
               (objects_kept_trans any_bucket)).
      intros. apply back_up_dir_keeps_objects.
    - intros [|]; apply keeps_same; try apply objects_kept_refl; reflexivity. }
  destruct (Hk w) as [_ Hobj]. now apply Hobj.
Qed.

Lemma back_up_keeps_objects_witness :
  let w' := final (back_up ServiceResource Session "data" "bk" "pfx" w_remote) in
  S3.head_object (s3 w') "bk" "pfx/data/a.txt" = inr 150%Z
  \/ S3.head_object (s3 w') "bk" "pfx/data/a.txt" = inr 200%Z.
Proof.
  apply (back_up_keeps_objects ServiceResource Session "data" "bk" "pfx" w_remote
           "bk" "pfx/data/a.txt" 150).
  reflexivity.
Defined.

Section Stores.

Context {A S : Type}.
Variable body : A -> S -> M S.
Variable keys_of : A -> list string.
Variable bucket_name : string.

Hypothesis body_keeps : forall x s, keeps (objects_kept bucket_name) (body x s).
Hypothesis body_stores :
  forall x s w s' w' t,
    body x s w = (inr s', w', t) -> Forall (stored bucket_name w') (keys_of x).

Lemma loop_stores (l : list A) :
  forall s w s' w' t,
    for_each l body s w = (inr s', w', t) ->
    Forall (stored bucket_name w') (flat_map keys_of l).
Proof.
  induction l as [|x l IH]; intros s w s' w' t H; simpl in *; [constructor|].
  apply bind_inr in H as (s1 & w1 & t1 & t2 & Hx & Hl & _).
  apply Forall_app. split; [|eapply IH; eassumption].
  pose proof (keeps_for_each _ (objects_kept_refl bucket_name)
                (objects_kept_trans bucket_name) body l body_keeps s1 w1) as Hk.
  unfold final in Hk. rewrite Hl in Hk. simpl in Hk.
  eapply Forall_impl; [|eapply body_stores; eassumption].
  intros key. now apply stored_kept.
Qed.

End Stores.

Lemma back_up_file_stores bucket_name bucket_dir dir_name file_name w w' t :
  back_up_file bucket_name bucket_dir dir_name file_name w = (inr tt, w', t) ->
  stored bucket_name w' (s3_full_path_of bucket_dir dir_name file_name).
Proof.
  intros H. unfold back_up_file in H.
  apply bind_inr in H as (u & w1 & t1 & t2 & Hp & H & _).
  unfold print_end, emit in Hp. injection Hp as _ <- _.
  apply bind_inr in H as (stale & w2 & t3 & t4 & Hn & H & _).
  assert (w2 = w) as ->.
  { pose proof (not_up_to_date_final (full_path_of dir_name file_name)
                  (bucket_name, bucket_dir ++ "/" ++ full_path_of dir_name file_name) w)
      as Hf.
    rewrite Hn in Hf. exact Hf. }
  destruct stale.
  - apply bind_inr in H as ([] & w3 & t5 & t6 & Hu & Hpr & _).
    unfold print, emit in Hpr. injection Hpr as <- _.
    apply upload_file_inv in Hu as (m & a' & Hs & Hput & ->).
    exists (S3.s3_clock (s3 w)). simpl.
    rewrite (head_after_put _ _ _ _ _ Hput).
    unfold s3_full_path_of. now rewrite String.eqb_refl.
  - unfold print, emit in H. injection H as <- _.
    assert (up_to_date bucket_name bucket_dir w (dir_name, file_name)) as Hup.
    { unfold up_to_date, outcome. simpl. unfold s3_full_path_of. now rewrite Hn. }
    apply up_to_date_iff in Hup as (n & t' & _ & Hh & _).
    now exists t'.
Qed.

Lemma back_up_dir_stores bucket_name bucket_dir item s w s' w' t :
  back_up_dir bucket_name bucket_dir item s w = (inr s', w', t) ->
  Forall (stored bucket_name w')
    (map (fun j => s3_full_path_of bucket_dir (fst j) (snd j)) (files_of_item item)).
Proof.
  destruct item as [[dir_name subdir_list] file_list]. unfold back_up_dir. simpl.
  intros H.
  apply bind_inr in H as (u & w1 & t1 & t2 & Hp & H & _).
  unfold print, emit in Hp. injection Hp as _ <- _.
  apply bind_inr in H as ([] & w2 & t3 & t4 & Hl & Hr & _).
  unfold ret in Hr. injection Hr as _ <- _.
  rewrite map_map. simpl. rewrite <- flat_map_singleton.
  apply (loop_stores (fun f (_ : unit) => back_up_file bucket_name bucket_dir dir_name f)
           (fun f => [s3_full_path_of bucket_dir dir_name f]) bucket_name)
    with (s := tt) (w := w) (s' := tt) (t := t3); [| |assumption].
  - intros. apply back_up_file_keeps_objects.
  - intros x [] w0 [] w0' t0 Hx. constructor; [|constructor].
    eapply back_up_file_stores; eassumption.
Qed.

Lemma map_of_flat_map {A B C : Type} (f : B -> C) (g : A -> list B) (l : list A) :
  map f (flat_map g l) = flat_map (fun x => map f (g x)) l.
Proof.
  induction l as [|x l IH]; simpl; [reflexivity|]. now rewrite map_app, IH.
Qed.

(** X4: a backup that returns has stored every file it reached.  For each
    file of the walk, the store answers for an object under the file's key
    in the bucket once [back_up] has returned. *)
Theorem back_up_stores_every_file
  (s3_client : s3_resource) (session : s3_session)
  (root_dir bucket_name bucket_dir : string) (w : world) :
  let run := back_up s3_client session root_dir bucket_name bucket_dir w in
  outcome run = inr tt ->
  Forall (fun j => stored bucket_name (final run)
                     (s3_full_path_of bucket_dir (fst j) (snd j)))
    (jobs (Os.walk (fs w) (cwd w) root_dir)).
Proof.
  intros run Hret. subst run.
  unfold back_up, bind, os_walk, outcome, final in *.
  destruct (for_each (Os.walk (fs w) (cwd w) root_dir)
              (back_up_dir bucket_name bucket_dir) false w)
    as [[[e|s1] w1] t1] eqn:Hloop; simpl in *; [discriminate|].
  assert (snd (fst ((if negb s1 then print (msg_no_backup root_dir) else ret tt) w1))
          = w1) as Hw by (destruct s1; reflexivity).
  destruct ((if negb s1 then print (msg_no_backup root_dir) else ret tt) w1)
    as [[r w2] t2]; simpl in *. subst w2.
  apply Forall_map. unfold jobs. rewrite map_of_flat_map.
  apply (loop_stores (back_up_dir bucket_name bucket_dir)
           (fun item => map (fun j => s3_full_path_of bucket_dir (fst j) (snd j))
                          (files_of_item item)) bucket_name)
    with (s := false) (w := w) (s' := s1) (t := t1); [| |assumption].
  - intros. apply back_up_dir_keeps_objects.
  - intros x s0 w0 s0' w0' t0 Hx. eapply back_up_dir_stores; eassumption.
Qed.

Lemma back_up_stores_every_file_witness :
  Forall (fun j => stored "bk"
                     (final (back_up ServiceResource Session "data" "bk" "pfx" w_data))
                     (s3_full_path_of "pfx" (fst j) (snd j)))
    [("data", "a.txt"); ("data/sub", "b.txt")].
Proof.
  apply (back_up_stores_every_file ServiceResource Session "data" "bk" "pfx" w_data).
  reflexivity.
Defined.

(* ================================================================== *)
(** ** What a restore does for every key *)

Lemma target_of_inv root_dir bucket_dir key w target w' t :
  target_of root_dir bucket_dir key w = (inr target, w', t) ->
  target_path (getcwd w) root_dir bucket_dir key = Some target /\ w' = w /\ t = [].
Proof.
  unfold target_of, target_path. destruct root_dir as [r|].
  - unfold bind, relpath, ret.
    destruct (posixpath.relpath (getcwd w) key bucket_dir) as [rel|]; simpl;
      [|discriminate].
    intros H. injection H as <- <- <-. auto.
  - unfold ret. intros H. injection H as <- <- <-. auto.
Qed.

Lemma download_file_inv bucket_name key path w w' t :
  download_file bucket_name key path w = (inr tt, w', t) ->
  cwd w' = cwd w /\ t = [DownloadFile bucket_name key path true].
Proof.
  unfold download_file.
  destruct (S3.get_object (s3 w) bucket_name key); [discriminate|].
  destruct (Os.write_file (clock w) (fs w) (cwd w) path); [discriminate|].
  intros H. injection H as <- <-. auto.
Qed.

Lemma makedirs_inv path w w' t :
  makedirs path w = (inr tt, w', t) ->
  cwd w' = cwd w /\ t = [MakeDirs path true].
Proof.
  unfold makedirs.
  destruct (Os.makedirs (clock w) (fs w) (cwd w) path) as [n [e|]]; [discriminate|].
  intros H. injection H as <- <-. auto.
Qed.

Lemma restore_object_handles root_dir bucket_name bucket_dir key success w s' w' t :
  restore_object root_dir bucket_name bucket_dir key success w = (inr s', w', t) ->
  cwd w' = cwd w
  /\ handled bucket_name root_dir bucket_dir (getcwd w) t key.
Proof.
  intros H. unfold restore_object in H.
  apply bind_inr in H as (target & w1 & t1 & t2 & Ht & H & ->).
  apply target_of_inv in Ht as (Htarget & -> & ->).
  apply bind_inr in H as (there & w2 & t3 & t4 & He & H & ->).
  unfold path_exists in He. injection He as _ <- <-.
  apply bind_inr in H as (skip & w3 & t5 & t6 & Hs & H & ->).
  assert (forall wa wb tb sb,
             (download_file bucket_name key target ;;; ret true) wa = (inr sb, wb, tb) ->
             cwd wb = cwd wa /\ In (DownloadFile bucket_name key target true) tb)
    as Hdown.
  { intros wa wb tb sb Hd.
    apply bind_inr in Hd as ([] & wc & tc & td & Hd & Hr & ->).
    unfold ret in Hr. injection Hr as _ <- <-.
    apply download_file_inv in Hd as (Hc & ->). split; [assumption | now left]. }
  destruct there; cbn [negb] in Hs.
  - unfold ret in Hs. injection Hs as <- <- <-.
    apply Hdown in H as (Hc & Hin).
    split; [assumption|]. exists target. split; [assumption|].
    left. right. exact Hin.
  - apply bind_inr in Hs as ([] & w4 & t7 & t8 & Hm & Hl & ->).
    apply makedirs_inv in Hm as (Hc4 & ->).
    destruct (Str.last_char key) as [c|] eqn:Elast; [|discriminate].
    unfold ret in Hl. injection Hl as <- <- <-.
    destruct (Ascii.eqb c "/") eqn:Ec.
    + unfold ret in H. injection H as _ <- <-.
      split; [assumption|]. exists target. split; [assumption|].
      right. apply Ascii.eqb_eq in Ec. subst c. split; [exact Elast|].
      right. now left.
    + apply Hdown in H as (Hc & Hin).
      split; [congruence|]. exists target. split; [assumption|].
      left. right. apply in_or_app. right. apply in_or_app. right. exact Hin.
Qed.

Lemma handled_more bucket_name root_dir bucket_dir cwd_path t1 t t2 key :
  handled bucket_name root_dir bucket_dir cwd_path t key ->
  handled bucket_name root_dir bucket_dir cwd_path (t1 ++ t ++ t2) key.
Proof.
  intros (target & Ht & H). exists target. split; [assumption|].
  destruct H as [H|[Hl H]]; [left | right; split; [assumption|]];
    apply in_or_app; right; apply in_or_app; now left.
Qed.

Lemma restore_loop_handles root_dir bucket_name bucket_dir keys :
  forall success w s' w' t,
    for_each keys (restore_object root_dir bucket_name bucket_dir) success w
    = (inr s', w', t) ->
    Forall (handled bucket_name root_dir bucket_dir (getcwd w) t) keys.
Proof.
  induction keys as [|key keys IH]; intros success w s' w' t H; [constructor|].
  simpl in H. apply bind_inr in H as (s1 & w1 & t1 & t2 & Hx & Hl & ->).
  apply restore_object_handles in Hx as (Hc & Hh).
  constructor.
  - rewrite <- (app_nil_l (t1 ++ t2)). now apply handled_more.
  - apply IH in Hl. unfold getcwd in *. rewrite Hc in Hl.
    eapply Forall_impl; [|exact Hl].
    intros k Hk. rewrite <- (app_nil_r t2). now apply handled_more.
Qed.

(** X5: a restore that returns has handled every key the bucket lists
    under the prefix: the key was downloaded to the path [restore] computes
    for it or, for a key that ends in "/", the directory of that path was
    made. *)
Theorem restore_handles_every_key
  (s3_client : s3_resource) (session : s3_session)
  (root_dir : option string) (bucket_name bucket_dir : string) (w : world)
  (keys : list string) :
  has_bucket w bucket_name ->
  S3.list_objects (s3 w) bucket_name bucket_dir = inr keys ->
  let run := restore s3_client session root_dir bucket_name bucket_dir w in
  outcome run = inr tt ->
  Forall (handled bucket_name root_dir bucket_dir (getcwd w) (trace run)) keys.
Proof.
  intros Hb Hl run Hret. subst run. revert Hret.
  rewrite (restore_unfold _ _ _ _ _ _ keys Hb Hl).
  destruct (for_each keys (restore_object root_dir bucket_name bucket_dir) false w)
    as [[[e|s1] w1] t1] eqn:Hloop; [discriminate|].
  apply restore_loop_handles in Hloop.
  assert (forall t2, Forall (handled bucket_name root_dir bucket_dir (getcwd w)
                               (BucketsAll :: ListObjects bucket_name bucket_dir
                                  :: t1 ++ t2)) keys) as Hall.
  { intros t2. eapply Forall_impl; [|exact Hloop].
    intros k Hk.
    change (BucketsAll :: ListObjects bucket_name bucket_dir :: t1 ++ t2)
      with ([BucketsAll; ListObjects bucket_name bucket_dir] ++ t1 ++ t2)%list.
    now apply handled_more. }
  destruct s1; [destruct root_dir; [|discriminate]|]; intros _; apply Hall.
Qed.

Lemma restore_handles_every_key_witness :
  let w := final (back_up ServiceResource Session "data" "bk" "pfx" w_data) in
  Forall (handled "bk" (Some "out") "pfx" "/home/u"
            (trace (restore ServiceResource Session (Some "out") "bk" "pfx" w)))
    ["pfx/data/a.txt"; "pfx/data/sub/b.txt"].
Proof.
  apply (restore_handles_every_key ServiceResource Session (Some "out") "bk" "pfx"
           (final (back_up ServiceResource Session "data" "bk" "pfx" w_data))).
  - unfold has_bucket. simpl. now left.
  - reflexivity.
  - reflexivity.
Defined.

(* ================================================================== *)
(** ** The bucket of a backup *)

Lemma assoc_in {A : Type} (k : string) (l : list (string * A)) :
  In k (map fst l) <-> exists v, Os.assoc k l = Some v.
Proof.
  induction l as [|[k0 v0] l IH]; simpl.
  - split; [tauto | intros [v H]; discriminate].
  - destruct (String.eqb k0 k) eqn:E.
    + apply String.eqb_eq in E. split; [now exists v0 | auto].
    + apply String.eqb_neq in E. rewrite <- IH. tauto.
Qed.

Lemma assoc_not_in {A : Type} (k : string) (l : list (string * A)) :
  ~ In k (map fst l) -> Os.assoc k l = None.
Proof.
  intros H. destruct (Os.assoc k l) as [v|] eqn:E; [|reflexivity].
  exfalso. apply H, assoc_in. now exists v.
Qed.


Lemma create_bucket_if_needed_returns bucket_name s3_client session w :
  outcome (create_bucket_if_needed bucket_name s3_client session w) = inr tt.
Proof.
  unfold create_bucket_if_needed, bind, try_except, buckets_all, print, emit,
    region_name, create_bucket, ret, raise, outcome.
  cbn [fst snd].
  destruct (negb _); cbn [fst snd]; [|reflexivity].
  unfold S3.create_bucket.
  destruct (existsb _ (map fst (S3.buckets (s3 w)))); [reflexivity|].
  destruct (existsb _ (S3.taken (s3 w))); reflexivity.
Qed.

Lemma upload_file_no_bucket bucket_name path key w :
  ~ has_bucket w bucket_name ->
  exists e, upload_file bucket_name path key w
            = (inl e, w, [UploadFile bucket_name path key false]).
Proof.
  intros Hb. apply assoc_not_in in Hb. unfold upload_file.
  destruct (Os.stat (fs w) (cwd w) path) as [[m|m es]|];
    [|eexists; reflexivity|eexists; reflexivity].
  assert (S3.put_object (s3 w) bucket_name key = inl (PyError "S3UploadFailedError"))
    as ->.
  { unfold S3.put_object. rewrite Hb. now destruct (Os.assoc key (S3.faults (s3 w))). }
  eexists. reflexivity.
Qed.

Lemma not_up_to_date_no_bucket path bucket_name key w :
  ~ has_bucket w bucket_name ->
  not_up_to_date path (bucket_name, key) w = (inr true, w, [HeadObject bucket_name key]).
Proof.
  intros Hb. apply assoc_not_in in Hb.
  unfold not_up_to_date, bind, try_except, last_modified, ret, raise.
  cbn [fst snd].
  assert (exists c, S3.head_object (s3 w) bucket_name key = inl (ClientError c))
    as [c ->].
  { unfold S3.head_object. rewrite Hb.
    destruct (Os.assoc key (S3.faults (s3 w))); eexists; reflexivity. }
  reflexivity.
Qed.

Lemma back_up_file_no_bucket bucket_name bucket_dir dir_name file_name w :
  ~ has_bucket w bucket_name ->
  exists e t,
    back_up_file bucket_name bucket_dir dir_name file_name w = (inl e, w, t)
    /\ Forall (fun e => is_completed_upload e = false) t.
Proof.
  intros Hb.
  destruct (upload_file_no_bucket bucket_name (full_path_of dir_name file_name)
              (bucket_dir ++ "/" ++ full_path_of dir_name file_name) w Hb) as [e E].
  exists e. eexists.
  unfold back_up_file. unfold bind at 1. unfold print_end, emit.
  unfold bind at 1. rewrite (not_up_to_date_no_bucket _ _ _ _ Hb).
  unfold bind at 1. rewrite E.
  split; [reflexivity | repeat constructor].
Qed.

Lemma back_up_dir_no_bucket bucket_name bucket_dir item success w :
  ~ has_bucket w bucket_name ->
  (files_of_item item = [] ->
   exists t, back_up_dir bucket_name bucket_dir item success w = (inr true, w, t)
             /\ Forall (fun e => is_completed_upload e = false) t)
  /\ (files_of_item item <> [] ->
      exists e t, back_up_dir bucket_name bucket_dir item success w = (inl e, w, t)
                  /\ Forall (fun e => is_completed_upload e = false) t).
Proof.
  intros Hb. destruct item as [[dir_name subdir_list] file_list].
  unfold back_up_dir, files_of_item. destruct file_list as [|f fl]; split.
  - intros _. eexists. split; [reflexivity | repeat constructor].
  - intros H. now destruct H.
  - discriminate.
  - intros _.
    destruct (back_up_file_no_bucket bucket_name bucket_dir dir_name f w Hb)
      as (e & t & E & HF).
    exists e, (Print (msg_found dir_name ++ Str.nl) :: t).
    unfold bind, print, emit. cbn [for_each fst snd]. unfold bind. rewrite E.
    split; [reflexivity | now constructor].
Qed.

Lemma back_up_loop_no_bucket bucket_name bucket_dir w items :
  ~ has_bucket w bucket_name ->
  forall success,
    (jobs items = [] ->
     exists s' t,
       for_each items (back_up_dir bucket_name bucket_dir) success w = (inr s', w, t)
       /\ Forall (fun e => is_completed_upload e = false) t)
    /\ (jobs items <> [] ->
        exists e t,
          for_each items (back_up_dir bucket_name bucket_dir) success w = (inl e, w, t)
          /\ Forall (fun e => is_completed_upload e = false) t).
Proof.
  intros Hb. induction items as [|item items IH]; intros success.
  - split; [|intros H; now destruct H].
    intros _. exists success, []. split; [reflexivity | constructor].
  - change (jobs (item :: items)) with (files_of_item item ++ jobs items)%list.
    destruct (back_up_dir_no_bucket bucket_name bucket_dir item success w Hb)
      as [Hnone Hsome].
    cbn [for_each]. unfold bind.
    destruct (files_of_item item) as [|j js] eqn:Ej.
    + destruct (Hnone eq_refl) as (t1 & E1 & HF1). rewrite E1.
      destruct (IH true) as [IHnone IHsome]. cbn [app]. split.
      * intros Hj. destruct (IHnone Hj) as (s' & t2 & E2 & HF2). rewrite E2.
        exists s', (t1 ++ t2)%list. split; [reflexivity | apply Forall_app; now split].
      * intros Hj. destruct (IHsome Hj) as (e & t2 & E2 & HF2). rewrite E2.
        exists e, (t1 ++ t2)%list. split; [reflexivity | apply Forall_app; now split].
    + destruct Hsome as (e & t1 & E1 & HF1); [discriminate|]. rewrite E1.
      split; [discriminate|]. intros _. now exists e, t1.
Qed.

(** X7: without its bucket [back_up] uploads nothing and changes nothing,
    and it raises exactly when the walk reaches a file: the first file ends
    the run. *)
Theorem back_up_without_bucket
  (s3_client : s3_resource) (session : s3_session)
  (root_dir bucket_name bucket_dir : string) (w : world) :
  ~ has_bucket w bucket_name ->
  let run := back_up s3_client session root_dir bucket_name bucket_dir w in
  final run = w
  /\ Forall (fun e => is_completed_upload e = false) (trace run)
  /\ ((exists e, outcome run = inl e)
      <-> jobs (Os.walk (fs w) (cwd w) root_dir) <> []).
Proof.
  intros Hb run. subst run.
  destruct (back_up_loop_no_bucket bucket_name bucket_dir w
              (Os.walk (fs w) (cwd w) root_dir) Hb false) as [Hnone Hsome].
  unfold back_up, bind, os_walk, final, trace, outcome. cbn [fst snd].
  destruct (jobs (Os.walk (fs w) (cwd w) root_dir)) as [|j js] eqn:Ej.
  - destruct (Hnone eq_refl) as (s' & t & E & HF). rewrite E.
    destruct s'; cbn [negb fst snd]; unfold print, emit, ret; cbn [fst snd].
    + split; [reflexivity|]. split.
      * constructor; [reflexivity|]. apply Forall_app. split; [assumption | constructor].
      * split; [intros [e H]; discriminate | intros H; now destruct H].
    + split; [reflexivity|]. split.
      * constructor; [reflexivity|]. apply Forall_app.
        split; [assumption | repeat constructor].
      * split; [intros [e H]; discriminate | intros H; now destruct H].
  - destruct Hsome as (e & t & E & HF); [discriminate|]. rewrite E. cbn [fst snd].
    split; [reflexivity|]. split.
    + constructor; [reflexivity | assumption].
    + split; [discriminate | intros _; now exists e].
Qed.

Lemma back_up_without_bucket_witness :
  let run := back_up ServiceResource Session "data" "nobucket" "pfx" w_data in
  final run = w_data
  /\ Forall (fun e => is_completed_upload e = false) (trace run)
  /\ ((exists e, outcome run = inl e)
      <-> jobs (Os.walk (fs w_data) (cwd w_data) "data") <> []).
Proof.
  apply (back_up_without_bucket ServiceResource Session "data" "nobucket" "pfx" w_data).
  unfold has_bucket. simpl. intros [H|[]]. discriminate H.
Defined.

(* ================================================================== *)
(** ** The command line *)

Lemma split_whole (sep s : string) :
  contains sep s = false -> Str.split sep s = [s].
Proof.
  unfold Str.split. induction s as [|c s IH]; intros H.
  - reflexivity.
  - cbn [contains] in H. apply orb_false_iff in H as [Hs Hr].
    cbn [Str.split_from]. rewrite Hs, (IH Hr). reflexivity.
Qed.

Lemma split_bucket (b d : string) :
  Str.has_char ":" b = false ->
  Str.split "::" (b ++ "::" ++ d) = b :: Str.split "::" d.
Proof.
  unfold Str.split. induction b as [|c b IH]; intros H.
  - reflexivity.
  - cbn [Str.has_char] in H. apply orb_false_iff in H as [Hc Hb].
    cbn [append Str.split_from Str.startswith].
    rewrite (Ascii.eqb_sym ":" c), Hc. cbn [andb].
    change (String ":" (String ":" d)) with ("::" ++ d)%string.
    now rewrite (IH Hb).
Qed.

Lemma guarded_returns (m : M unit) (text : string) (w : world) :
  try_except m (fun _ => print text) w
  = (inr tt, final (m w),
     (trace (m w)
      ++ match outcome (m w) with
         | inl _ => [Print (text ++ Str.nl)]
         | inr _ => []
         end)%list).
Proof.
  unfold try_except, final, trace, outcome, print, emit.
  destruct (m w) as [[[e|[]] w1] t1]; cbn [fst snd]; [reflexivity|].
  now rewrite app_nil_r.
Qed.


(** X9: an argument that should name the bucket and its directory but
    holds no "::" ends the run at once: [main] prints the message of its
    handler, and neither the store nor the file tree is asked anything. *)
Theorem main_without_separator (root_dir arg : string) (w : world) :
  contains "::" arg = false ->
  main ["backup"; root_dir; arg] w
  = (inr tt, w, [Boto3Resource; Boto3Session; Print (msg_fatal ++ Str.nl)])
  /\ main ["restore"; arg; root_dir] w
     = (inr tt, w, [Boto3Resource; Boto3Session; Print (msg_fatal ++ Str.nl)]).
Proof.
  intros H. unfold main. cbn [List.length Nat.ltb Nat.leb nth].
  unfold bind at 1. unfold boto3_resource at 1. unfold bind at 1, emit at 1, ret at 1.
  cbn [fst snd]. unfold bind at 1, boto3_session at 1.
  unfold bind at 1, emit at 1, ret at 1. cbn [fst snd].
  unfold bind at 1. unfold boto3_resource at 1. unfold bind at 1, emit at 1, ret at 1.
  cbn [fst snd]. unfold bind at 1, boto3_session at 1.
  unfold bind at 1, emit at 1, ret at 1. cbn [fst snd].
  change (String.eqb "backup" "backup") with true.
  change (String.eqb "restore" "backup") with false.
  change (String.eqb "restore" "restore") with true.
  cbv iota. rewrite !guarded_returns, (split_whole "::" arg H).
  unfold index. cbn [nth_error]. split; reflexivity.
Qed.

Lemma main_without_separator_witness :
  main ["backup"; "data"; "bk:pfx"] w_data
  = (inr tt, w_data, [Boto3Resource; Boto3Session; Print (msg_fatal ++ Str.nl)])
  /\ main ["restore"; "bk:pfx"; "data"] w_data
     = (inr tt, w_data, [Boto3Resource; Boto3Session; Print (msg_fatal ++ Str.nl)]).
Proof.
  apply (main_without_separator "data" "bk:pfx" w_data). reflexivity.
Defined.

(** X10: [main] takes "restore b::d dir" apart as the bucket [b] and the
    directory [d] (for [b] free of ":" and [d] free of "::") and runs
    [restore] on them into [dir]: after the two handles and the line
    "restoring..." the trace and the world are those of [restore], with the
    message of the handler at the end when [restore] raised. *)
Theorem main_restore_runs_restore (b d root_dir : string) (w : world) :
  Str.has_char ":" b = false ->
  contains "::" d = false ->
  let run := restore ServiceResource Session (Some root_dir) b d w in
  main ["restore"; b ++ "::" ++ d; root_dir] w
  = (inr tt, final run,
     ([Boto3Resource; Boto3Session; Print ("restoring..." ++ Str.nl)]
      ++ trace run
      ++ match outcome run with
         | inl _ => [Print (msg_fatal ++ Str.nl)]
         | inr _ => []
         end)%list).
Proof.
  intros Hb Hd run. subst run. unfold main.
  cbn [List.length Nat.ltb Nat.leb nth].
  unfold bind at 1. unfold boto3_resource at 1. unfold bind at 1, emit at 1, ret at 1.
  cbn [fst snd]. unfold bind at 1, boto3_session at 1.
  unfold bind at 1, emit at 1, ret at 1. cbn [fst snd].
  change (String.eqb "restore" "backup") with false.
  change (String.eqb "restore" "restore") with true. cbv iota.
  rewrite guarded_returns.
  rewrite (split_bucket b d Hb), (split_whole "::" d Hd).
  unfold index. cbn [nth_error].
  unfold bind, ret, print, emit, final, trace, outcome. cbn [fst snd app].
  destruct (restore ServiceResource Session (Some root_dir) b d w) as [[[e|[]] w1] t1];
    cbn [fst snd app]; reflexivity.
Qed.

Lemma main_restore_runs_restore_witness :
  main ["restore"; "bk::pfx"; "out"] w_marker
  = (inr tt, final (restore ServiceResource Session (Some "out") "bk" "pfx" w_marker),
     [Boto3Resource; Boto3Session; Print ("restoring..." ++ Str.nl);
      BucketsAll; ListObjects "bk" "pfx"; PathExists "out";
      DownloadFile "bk" "pfx/a/" "out/a" true;
      Print (msg_restored "bk" "out" ++ Str.nl)]).
Proof.
  apply (main_restore_runs_restore "bk" "pfx" "out" w_marker); reflexivity.
Defined.



(* ================================================================== *)
(** ** The change check without a local file *)



(* ================================================================== *)
(** ** Restore without a directory to restore into *)

Lemma list_objects_of_bucket w bucket_name bucket_dir :
  has_bucket w bucket_name ->
  exists keys, S3.list_objects (s3 w) bucket_name bucket_dir = inr keys.
Proof.
  intros H. apply assoc_in in H as [b Hb]. unfold S3.list_objects. rewrite Hb.
  eexists. reflexivity.
Qed.

(** X13: with [root_dir] absent, [restore] uses the keys themselves as
    paths, but it can never report success: once a download has completed
    the run ends in an exception (the TypeError of the final message, unless
    an earlier call raised), and the success message is never printed. *)
Theorem restore_without_root
  (s3_client : s3_resource) (session : s3_session)
  (bucket_name bucket_dir : string) (w : world) :
  has_bucket w bucket_name ->
  let run := restore s3_client session None bucket_name bucket_dir w in
  (existsb is_completed_download (trace run) = true -> exists e, outcome run = inl e)
  /\ (forall keys s' w' t,
        S3.list_objects (s3 w) bucket_name bucket_dir = inr keys ->
        for_each keys (restore_object None bucket_name bucket_dir) false w
        = (inr s', w', t) ->
        outcome run = if s' : bool then inl (PyError "TypeError") else inr tt)
  /\ Forall (fun e => is_print e = false
                      \/ e = Print (msg_no_restore bucket_dir bucket_name ++ Str.nl))
       (trace run).
Proof.
  intros Hb run. subst run.
  destruct (list_objects_of_bucket w bucket_name bucket_dir Hb) as [keys Hl].
  rewrite (restore_unfold _ _ _ _ _ _ keys Hb Hl).
  pose proof (restore_loop_spec None bucket_name bucket_dir keys false w) as [HP Hs].
  unfold outcome, trace in *.
  destruct (for_each keys (restore_object None bucket_name bucket_dir) false w)
    as [[[e|s1] w1] t1] eqn:Hloop; cbn [fst snd orb] in *.
  - split; [intros _; now exists e|]. split.
    { intros keys' s' w' t Hl' H. rewrite Hl in Hl'. injection Hl' as <-.
      rewrite Hloop in H. discriminate H. }
    constructor; [now left|]. constructor; [now left|].
    eapply Forall_impl; [|exact HP]. intros; now left.
  - assert (forall keys' s' w' t,
               S3.list_objects (s3 w) bucket_name bucket_dir = inr keys' ->
               for_each keys' (restore_object None bucket_name bucket_dir) false w
               = (inr s', w', t) -> s' = s1) as Hsame.
    { intros keys' s' w' t Hl' H. rewrite Hl in Hl'. injection Hl' as <-.
      rewrite Hloop in H. now injection H as <- _ _. }
    destruct s1; cbn [fst snd].
    + split; [intros _; eexists; reflexivity|]. split.
      { intros keys' s' w' t Hl' H. now rewrite (Hsame _ _ _ _ Hl' H). }
      constructor; [now left|]. constructor; [now left|].
      rewrite app_nil_r. eapply Forall_impl; [|exact HP]. intros; now left.
    + split.
      { cbn [existsb is_completed_download orb]. rewrite existsb_app, <- Hs.
        discriminate. }
      split.
      { intros keys' s' w' t Hl' H. now rewrite (Hsame _ _ _ _ Hl' H). }
      constructor; [now left|]. constructor; [now left|].
      apply Forall_app. split.
      * eapply Forall_impl; [|exact HP]. intros; now left.
      * constructor; [now right | constructor].
Qed.

Lemma restore_without_root_witness :
  exists e, outcome (restore ServiceResource Session None "bk" "pfx"
                       (final (back_up ServiceResource Session "data" "bk" "pfx" w_data)))
            = inl e.
Proof.
  apply (proj1 (restore_without_root ServiceResource Session "bk" "pfx"
                  (final (back_up ServiceResource Session "data" "bk" "pfx" w_data))
                  ltac:(unfold has_bucket; simpl; now left))).
  reflexivity.
Defined.

(* ================================================================== *)
(** ** The shape of the keys and of the transfers *)

Lemma replace_removes (old new : ascii) (s : string) :
  new <> old -> Str.has_char old (Str.replace old new s) = false.
Proof.
  intros Hne. induction s as [|c s IH]; [reflexivity|].
  cbn [Str.replace Str.has_char]. rewrite IH, orb_false_r.
  destruct (Ascii.eqb c old) eqn:E; [now apply Ascii.eqb_neq | exact E].
Qed.

(** X14: whatever the names on the host, the part of a key that follows
    the prefix and "/" holds no backslash, and it is the joined path itself
    when that holds none.  The prefix is taken as it is. *)
Theorem back_up_key_shape (bucket_dir dir_name file_name : string) :
  s3_full_path_of bucket_dir dir_name file_name
  = (bucket_dir ++ "/" ++ full_path_of dir_name file_name)%string
  /\ Str.has_char Str.backslash (full_path_of dir_name file_name) = false
  /\ String.length (full_path_of dir_name file_name)
     = String.length (posixpath.join dir_name file_name)
  /\ (Str.has_char Str.backslash (posixpath.join dir_name file_name) = false ->
      full_path_of dir_name file_name = posixpath.join dir_name file_name).
Proof.
  split; [reflexivity|]. unfold full_path_of. split; [|split].
  - apply replace_removes. discriminate.
  - induction (posixpath.join dir_name file_name) as [|c s IH]; [reflexivity|].
    cbn [Str.replace String.length]. now rewrite IH.
  - apply replace_none.
Qed.

Lemma back_up_key_shape_witness :
  full_path_of "data/sub" "b.txt" = "data/sub/b.txt".
Proof.
  apply (proj2 (proj2 (proj2 (back_up_key_shape "pfx" "data/sub" "b.txt")))).
  reflexivity.
Defined.

Lemma checks_first_nil : checks_first [].
Proof. unfold checks_first. simpl. lia. Qed.

Lemma checks_first_app t1 t2 :
  checks_first t1 -> checks_first t2 -> checks_first (t1 ++ t2).
Proof.
  unfold checks_first. rewrite filter_app, looked_up_app, !length_app. lia.
Qed.

Section TraceSums.

Variable Q : list event -> Prop.
Hypothesis Q_nil : Q [].
Hypothesis Q_app : forall t1 t2, Q t1 -> Q t2 -> Q (t1 ++ t2)%list.

Lemma sum_bind {A B : Type} (m : M A) (k : A -> M B) (w : world) :
  Q (trace (m w)) -> (forall a w', Q (trace (k a w'))) -> Q (trace (bind m k w)).
Proof.
  intros Hm Hk. unfold bind, trace in *.
  destruct (m w) as [[[e|a] w1] t1]; simpl in *; [assumption|].
  specialize (Hk a w1). destruct (k a w1) as [[r w2] t2]; simpl in *.
  now apply Q_app.
Qed.

Lemma sum_for_each {A S : Type} (body : A -> S -> M S) :
  (forall x s w, Q (trace (body x s w))) ->
  forall l s w, Q (trace (for_each l body s w)).
Proof.
  intros Hb l. induction l as [|x l IH]; intros s w; simpl.
  - exact Q_nil.
  - apply sum_bind; [apply Hb | intros; apply IH].
Qed.

End TraceSums.

Lemma back_up_file_looks_once bucket_name bucket_dir dir_name file_name w :
  looked_up (trace (back_up_file bucket_name bucket_dir dir_name file_name w))
  = [s3_full_path_of bucket_dir dir_name file_name].
Proof.
  unfold back_up_file. rewrite looked_up_bind.
  unfold print_end at 1 2. unfold emit at 1 2. unfold trace at 1, outcome at 1.
  cbv beta iota delta [fst snd looked_up app].
  rewrite looked_up_bind, not_up_to_date_asks.
  destruct (outcome _) as [e|[|]]; [reflexivity| |].
  - rewrite (looked_up_none (trace _)); [reflexivity|].
    apply trace_bind; [one_event | intros; one_event].
  - rewrite (looked_up_none (trace _)); [reflexivity | one_event].
Qed.

Lemma trace_of_bind {A B : Type} (m : M A) (k : A -> M B) (w : world) :
  trace (bind m k w)
  = (trace (m w)
     ++ match outcome (m w) with
        | inr a => trace (k a (final (m w)))
        | inl _ => []
        end)%list.
Proof.
  unfold bind, trace, outcome, final.
  destruct (m w) as [[[e|a] w1] t1]; simpl; [now rewrite app_nil_r|].
  destruct (k a w1) as [[r w2] t2]. reflexivity.
Qed.

Lemma no_upload_filter (t : list event) :
  Forall (fun e => is_upload e = false) t -> filter is_upload t = [].
Proof.
  induction 1 as [|e t He _ IH]; [reflexivity|]. simpl. now rewrite He.
Qed.

Lemma upload_file_trace bucket_name path key w :
  exists ok, trace (upload_file bucket_name path key w)
             = [UploadFile bucket_name path key ok].
Proof.
  unfold upload_file, trace.
  destruct (Os.stat (fs w) (cwd w) path) as [[m|m es]|];
    [destruct (S3.put_object (s3 w) bucket_name key)| |]; eexists; reflexivity.
Qed.

Lemma back_up_file_checks_first bucket_name bucket_dir dir_name file_name w :
  checks_first (trace (back_up_file bucket_name bucket_dir dir_name file_name w)).
Proof.
  unfold checks_first. rewrite back_up_file_looks_once. cbn [List.length].
  unfold back_up_file. rewrite trace_of_bind.
  unfold print_end at 1 2 3, emit at 1 2 3. unfold trace at 1, outcome at 1.
  cbn [fst snd app filter is_upload].
  rewrite trace_of_bind, filter_app, length_app.
  rewrite (no_upload_filter (trace (not_up_to_date _ _ _)));
    [|now apply not_up_to_date_trace].
  cbn [List.length plus].
  destruct (outcome _) as [e|[|]]; [cbn; lia| |].
  - rewrite trace_of_bind, filter_app, length_app.
    match goal with
    | |- context [trace (upload_file ?b ?p ?k ?w0)] =>
        destruct (upload_file_trace b p k w0) as [ok ->]
    end.
    destruct (outcome _); cbn; lia.
  - unfold trace, print, emit. cbn. lia.
Qed.

Lemma back_up_file_uploads_under bucket_name bucket_dir dir_name file_name w :
  Forall (upload_under bucket_name bucket_dir)
    (trace (back_up_file bucket_name bucket_dir dir_name file_name w)).
Proof.
  unfold back_up_file.
  apply trace_bind; [one_event|]. intros _ w1.
  apply trace_bind; [apply not_up_to_date_trace; exact I|]. intros [|] w2.
  - apply trace_bind; [|intros; one_event].
    unfold trace, upload_file.
    destruct (Os.stat _ _ _) as [[?|? ?]|]; cbn [snd];
      [destruct (S3.put_object _ _ _); cbn [snd]| |];
      (constructor; [split; reflexivity | constructor]).
  - one_event.
Qed.

(** X15: [back_up] looks before it uploads and uploads where it looked.
    In every run, returning or not, the uploads tried are no more than the
    metadata requests made, and each of them goes to the bucket of the
    backup under the prefix, "/" and the path of the file it reads. *)
Theorem back_up_uploads
  (s3_client : s3_resource) (session : s3_session)
  (root_dir bucket_name bucket_dir : string) (w : world) :
  let run := back_up s3_client session root_dir bucket_name bucket_dir w in
  checks_first (trace run)
  /\ Forall (upload_under bucket_name bucket_dir) (trace run).
Proof.
  intros run. subst run. unfold back_up. split.
  - apply (sum_bind _ checks_first_app); [unfold trace, os_walk; cbn; apply checks_first_nil|].
    intros items w1. apply (sum_bind _ checks_first_app).
    + apply (sum_for_each _ checks_first_nil checks_first_app).
      intros [[d sd] fl] s w2. unfold back_up_dir.
      apply (sum_bind _ checks_first_app);
        [unfold trace, print, emit; cbn; apply checks_first_nil|].
      intros _ w3. apply (sum_bind _ checks_first_app);
        [|intros; apply checks_first_nil].
      apply (sum_for_each _ checks_first_nil checks_first_app).
      intros. apply back_up_file_checks_first.
    + intros [|] w2; unfold trace, print, emit, ret; cbn; apply checks_first_nil.
  - apply trace_bind; [one_event|]. intros items w1.
    apply trace_bind.
    + apply trace_for_each. intros [[d sd] fl] s w2. unfold back_up_dir.
      apply trace_bind; [one_event|]. intros _ w3.
      apply trace_bind; [|intros; apply trace_ret].
      apply trace_for_each. intros. apply back_up_file_uploads_under.
    + intros [|] w2; one_event.
Qed.

Lemma restore_object_writes root_dir bucket_name bucket_dir keys key success w :
  In key keys ->
  Forall (write_for bucket_name root_dir bucket_dir (getcwd w) keys)
    (trace (restore_object root_dir bucket_name bucket_dir key success w)).
Proof.
  intros Hin.
  assert (forall target, target_path (getcwd w) root_dir bucket_dir key = Some target ->
            forall ok, write_for bucket_name root_dir bucket_dir (getcwd w) keys
                         (DownloadFile bucket_name key target ok)) as Hdown.
  { intros target Ht ok. cbn [write_for]. auto. }
  assert (forall target, target_path (getcwd w) root_dir bucket_dir key = Some target ->
            forall ok, write_for bucket_name root_dir bucket_dir (getcwd w) keys
                         (MakeDirs (posixpath.dirname target) ok)) as Hmake.
  { intros target Ht ok. cbn [write_for]. exists key, target. auto. }
  assert (forall path, write_for bucket_name root_dir bucket_dir (getcwd w) keys
                         (PathExists path)) as Hexists by (intros; exact I).
  assert (exists target, target_path (getcwd w) root_dir bucket_dir key = Some target
                         /\ target_of root_dir bucket_dir key w = (inr target, w, [])
          \/ target_of root_dir bucket_dir key w = (inl (PyError "ValueError"), w, []))
    as Htarget.
  { unfold target_of, target_path, bind, relpath, ret. destruct root_dir as [r|].
    - destruct (posixpath.relpath (getcwd w) key bucket_dir) as [rel|]; cbn [fst snd].
      + exists (posixpath.join r rel). left. split; reflexivity.
      + exists "". right. reflexivity.
    - exists key. left. split; reflexivity. }
  destruct Htarget as [target [[Ht E]|E]];
    unfold restore_object; unfold bind at 1; rewrite E; [|constructor].
  specialize (Hdown target Ht). specialize (Hmake target Ht).
  unfold bind, path_exists, makedirs, download_file, ret, raise, trace.
  cbn [fst snd].
  destruct (Os.stat (fs w) (cwd w) (posixpath.dirname target)); cbn [negb fst snd].
  - destruct (S3.get_object (s3 w) bucket_name key); cbn [fst snd app];
      [|destruct (Os.write_file _ _ _ _); cbn [fst snd app]];
      repeat (constructor; auto).
  - destruct (Os.makedirs _ _ _ _) as [n [e|]]; cbn [fst snd app];
      [repeat (constructor; auto)|].
    destruct (Str.last_char key) as [c|]; cbn [fst snd app];
      [|repeat (constructor; auto)].
    destruct (Ascii.eqb c "/"); cbn [fst snd app]; [repeat (constructor; auto)|].
    destruct (S3.get_object _ bucket_name key); cbn [fst snd app];
      [|destruct (Os.write_file _ _ _ _); cbn [fst snd app]];
      repeat (constructor; auto).
Qed.

Lemma restore_loop_writes root_dir bucket_name bucket_dir keys w l :
  incl l keys ->
  forall success w',
    cwd w' = cwd w ->
    Forall (write_for bucket_name root_dir bucket_dir (getcwd w) keys)
      (trace (for_each l (restore_object root_dir bucket_name bucket_dir) success w')).
Proof.
  induction l as [|key l IH]; intros Hincl success w' Hc; [constructor|].
  cbn [for_each]. rewrite trace_of_bind. apply Forall_app. split.
  - assert (getcwd w = getcwd w') as -> by (unfold getcwd; now rewrite Hc).
    apply restore_object_writes. apply Hincl. now left.
  - destruct (outcome _) as [e|s1]; [constructor|].
    apply IH.
    + intros k Hk. apply Hincl. now right.
    + destruct (restore_object_keeps root_dir bucket_name bucket_dir key success w')
        as (_ & Hc' & _).
      congruence.
Qed.

(** X16: [restore] writes on the host only for the keys it listed.  In
    every run, returning or not, each download is of a listed key of the
    bucket to the path computed for that key, and each directory made is the
    directory of such a path. *)
Theorem restore_writes
  (s3_client : s3_resource) (session : s3_session)
  (root_dir : option string) (bucket_name bucket_dir : string) (w : world)
  (keys : list string) :
  has_bucket w bucket_name ->
  S3.list_objects (s3 w) bucket_name bucket_dir = inr keys ->
  Forall (write_for bucket_name root_dir bucket_dir (getcwd w) keys)
    (trace (restore s3_client session root_dir bucket_name bucket_dir w)).
Proof.
  intros Hb Hl. rewrite (restore_unfold _ _ _ _ _ _ keys Hb Hl).
  pose proof (restore_loop_writes root_dir bucket_name bucket_dir keys w keys
                (incl_refl keys) false w eq_refl) as HF.
  unfold trace in *.
  destruct (for_each keys (restore_object root_dir bucket_name bucket_dir) false w)
    as [[[e|s1] w1] t1]; cbn [fst snd] in *.
  - constructor; [exact I|]. constructor; [exact I | assumption].
  - destruct s1; [destruct root_dir|]; cbn [fst snd];
      (constructor; [exact I|]; constructor; [exact I|]);
      apply Forall_app; (split; [assumption | repeat constructor]).
Qed.

Lemma restore_writes_witness :
  Forall (write_for "bk" (Some "out") "pfx" "/home/u" ["pfx/a/"])
    (trace (restore ServiceResource Session (Some "out") "bk" "pfx" w_marker)).
Proof.
  apply (restore_writes ServiceResource Session (Some "out") "bk" "pfx" w_marker).
  - unfold has_bucket. simpl. now left.
  - reflexivity.
Defined.
